(** * CrowdSolve backend (server.js): a shallow embedding and its properties

    The Express handlers of [server.js] are embedded as functions in a small
    state-and-exception monad over a [World]: the four MongoDB collections,
    the ObjectId generator and the trace of effects performed so far
    (Cloudinary calls, document saves and deletes, console output).

    What lies behind a library boundary is kept abstract: bcrypt, jsonwebtoken
    and the Cloudinary uploader are interfaces whose answers may depend on the
    whole history of effects. Multipart decoding (multer) is taken as given:
    a request arrives with [req.body] and [req.file] already parsed. Route
    parameters and the [userId] carried by a token are well-formed ObjectIds.
    Text fields of a request body are strings or absent. *)

From Stdlib Require Import ZArith Lia Ascii String.
From stdpp Require Import base option list sorting gmap strings.

Open Scope string_scope.
Open Scope list_scope.
Open Scope nat_scope.
Open Scope stdpp_scope.

(** ** JavaScript values used by the handlers *)

Module Js.

(** [s.split(sep)] for a one-character separator. *)
Fixpoint split (sep : ascii) (s : string) : list string :=
  match s with
  | EmptyString => [EmptyString]
  | String c rest =>
      if Ascii.eqb c sep then EmptyString :: split sep rest
      else match split sep rest with
           | [] => [String c EmptyString]
           | piece :: pieces => String c piece :: pieces
           end
  end.

(** [a.pop()] as a value: the last element, [undefined] on an empty array. *)
Definition pop (a : list string) : option string := last a.

(** Truthiness of a string: every string but the empty one. *)
Definition truthy (s : string) : bool :=
  match s with EmptyString => false | String _ _ => true end.

(** Truthiness of a value that is a string, [null] or [undefined]. *)
Definition truthy_opt (v : option string) : bool :=
  match v with Some s => truthy s | None => false end.

(** [a || b] where [a] is a string or [undefined] and [b] a string. *)
Definition or (a : option string) (b : string) : string :=
  match a with
  | Some s => if truthy s then s else b
  | None => b
  end.

(** [a.indexOf(x)]: the first index holding [x], or [-1]. *)
Fixpoint indexOf_from {A} `{EqDecision A} (a : list A) (x : A) (i : Z) : Z :=
  match a with
  | [] => (-1)%Z
  | y :: rest => if decide (x = y) then i else indexOf_from rest x (i + 1)%Z
  end.

Definition indexOf {A} `{EqDecision A} (a : list A) (x : A) : Z :=
  indexOf_from a x 0%Z.

(** [a.splice(i, 1)] for an index [i] known to be non-negative. *)
Definition splice1 {A} (i : Z) (a : list A) : list A := delete (Z.to_nat i) a.

(** [a.push(x)]. *)
Definition push {A} (a : list A) (x : A) : list A := a ++ [x].

End Js.

(** ** Schemas *)

(** A MongoDB ObjectId. *)
Abbreviation ObjectId := nat (only parsing).

Module User.
Record t := mk
  { username : string;
    email : string;
    password : string;
    createdAt : nat }.
End User.

Inductive Status := open | solved.

Module Problem.
Record t := mk
  { title : string;
    description : string;
    location : string;
    image : option string;
    postedBy : ObjectId;
    createdAt : nat;
    status : Status }.

Definition set_title (x : t) (v : string) : t :=
  mk v (description x) (location x) (image x) (postedBy x) (createdAt x) (status x).
Definition set_description (x : t) (v : string) : t :=
  mk (title x) v (location x) (image x) (postedBy x) (createdAt x) (status x).
Definition set_location (x : t) (v : string) : t :=
  mk (title x) (description x) v (image x) (postedBy x) (createdAt x) (status x).
Definition set_image (x : t) (v : option string) : t :=
  mk (title x) (description x) (location x) v (postedBy x) (createdAt x) (status x).
End Problem.

Module Solution.
Record t := mk
  { description : string;
    problemId : ObjectId;
    postedBy : ObjectId;
    upvotes : list ObjectId;
    createdAt : nat }.

Definition set_upvotes (x : t) (v : list ObjectId) : t :=
  mk (description x) (problemId x) (postedBy x) v (createdAt x).
End Solution.

Module Comment.
Record t := mk
  { text : string;
    solutionId : ObjectId;
    postedBy : ObjectId;
    createdAt : nat }.
End Comment.

#[global] Instance Status_eq_dec : EqDecision Status.
Proof. solve_decision. Defined.
#[global] Instance User_eq_dec : EqDecision User.t.
Proof. solve_decision. Defined.
#[global] Instance Problem_eq_dec : EqDecision Problem.t.
Proof. solve_decision. Defined.
#[global] Instance Solution_eq_dec : EqDecision Solution.t.
Proof. solve_decision. Defined.
#[global] Instance Comment_eq_dec : EqDecision Comment.t.
Proof. solve_decision. Defined.

(** ** The world a handler runs in *)

(** [req.file] as multer's memory storage leaves it. *)
Record File := { buffer : list Byte.byte }.

Inductive Collection := Users | Problems | Solutions | Comments.

(** What a rejected promise or a [throw] carries. *)
Inductive Error :=
  | ValidationError (model : string) (paths : list string)
  | TypeError
  | BcryptError
  | CloudinaryError (message : string).

Inductive Event :=
  | CloudUpload (file : File)
  | CloudDestroy (public_id : string)
  | DbSave (c : Collection) (id : ObjectId)
  | DbDelete (c : Collection) (id : ObjectId)
  | ConsoleError (label : string) (error : Error).

Record Db := mkDb
  { users : gmap ObjectId User.t;
    problems : gmap ObjectId Problem.t;
    solutions : gmap ObjectId Solution.t;
    comments : gmap ObjectId Comment.t }.

Record World := mkWorld
  { db : Db;
    next_id : ObjectId;
    trace : list Event }.

Definition empty_db : Db := mkDb ∅ ∅ ∅ ∅.
Definition initial_world : World := mkWorld empty_db 0 [].

(** A promise, once settled. *)
Inductive Settled (A : Type) :=
  | Resolved (a : A)
  | Rejected (e : Error).
Arguments Resolved {A} a.
Arguments Rejected {A} e.

(** An [async] computation: it runs on a world, leaves a world, and either
    completes with a value or throws. Effects performed before a throw stay. *)
Definition Async (A : Type) : Type := World → Settled A * World.

#[global] Instance Async_ret : MRet Async := λ A a w, (Resolved a, w).
#[global] Instance Async_bind : MBind Async := λ A B f m w,
  match m w with
  | (Resolved a, w') => f a w'
  | (Rejected e, w') => (Rejected e, w')
  end.

Definition throw {A} (e : Error) : Async A := λ w, (Rejected e, w).

(** [try { body } catch (error) { handler }]. *)
Definition try_catch {A} (body : Async A) (handler : Error → Async A) : Async A :=
  λ w, match body w with
       | (Resolved a, w') => (Resolved a, w')
       | (Rejected e, w') => handler e w'
       end.

Definition get_db : Async Db := λ w, (Resolved (db w), w).
Definition set_db (d : Db) : Async unit :=
  λ w, (Resolved tt, mkWorld d (next_id w) (trace w)).
Definition emit (e : Event) : Async unit :=
  λ w, (Resolved tt, mkWorld (db w) (next_id w) (trace w ++ [e])).
Definition history : Async (list Event) := λ w, (Resolved (trace w), w).

(** A new document gets its [_id] when it is constructed. *)
Definition new_ObjectId : Async ObjectId :=
  λ w, (Resolved (next_id w), mkWorld (db w) (S (next_id w)) (trace w)).

(** [await p] for a promise already settled by the outside world. *)
Definition await {A} (p : Settled A) : Async A := λ w, (p, w).

(** ** The libraries behind the handlers *)

(** bcryptjs: [hash(password, rounds)] draws a salt, [compare(password, hash)]. *)
Class Bcrypt := {
  bcrypt_hash : string → nat → nat → string;
  bcrypt_compare : string → string → bool }.

(** What a token embeds. *)
Record Claims := { userId : ObjectId; username : string }.

(** jsonwebtoken, with the secret fixed: [sign(payload, secret, {expiresIn})]
    at a time, and [verify(token, secret)] at a time. *)
Class Jwt := {
  jwt_sign : Claims → string → nat → string;
  jwt_verify : string → nat → option Claims }.

(** The Cloudinary uploader. Its answers may depend on everything that
    happened before the call. *)
Class Cloudinary := {
  uploader_upload_stream : list Event → File → Settled string;
  uploader_destroy : list Event → string → Settled unit }.

(** What a handler reads from its surroundings: the clock and randomness. *)
Record Ambient := { now : nat; entropy : nat }.

(** ** Requests and responses *)

Record Request := {
  req_headers : gmap string string;
  req_params_id : ObjectId;
  req_body : gmap string string;
  req_file : option File }.

(** A document as it is serialised after [populate('postedBy', 'username')]:
    the owner is replaced by [{_id, username}], or [null] when no such user
    is stored. *)
Record Populated (D : Type) := {
  doc_id : ObjectId;
  doc : D;
  doc_postedBy : option (ObjectId * string) }.
Arguments doc_id {D} _.
Arguments doc {D} _.
Arguments doc_postedBy {D} _.

Record UserSummary := { id : ObjectId; summary_username : string; summary_email : string }.

Inductive Body :=
  | Message (message : string)
  | ServerError (message : string) (error : Error)
  | Health (message status : string) (timestamp : nat) (version : string)
  | Authenticated (message token : string) (user : UserSummary)
  | ProblemDoc (p : Populated Problem.t)
  | ProblemList (ps : list (Populated Problem.t))
  | SolutionDoc (s : Populated Solution.t)
  | SolutionList (ss : list (Populated Solution.t))
  | CommentDoc (c : Populated Comment.t)
  | CommentList (cs : list (Populated Comment.t))
  | Upvotes (upvotes : nat) (hasUpvoted : bool).

Record Response := { res_status : nat; res_body : Body }.

(** [res.status(code).json(body)]; [res.json(body)] answers 200. *)
Definition res_json (code : nat) (b : Body) : Async Response :=
  mret {| res_status := code; res_body := b |}.

(** ** Mongoose models *)

Module Mongoose.

(** The [required] validator of a String path. *)
Definition checkRequired (v : option string) : bool := Js.truthy_opt v.

Fixpoint failing_paths (fields : list (string * option string)) : list string :=
  match fields with
  | [] => []
  | (path, v) :: rest =>
      if checkRequired v then failing_paths rest else path :: failing_paths rest
  end.

(** [Model.findById(id)]. *)
Definition findById {D} (c : Db → gmap ObjectId D) (i : ObjectId) : Async (option D) :=
  d ← get_db; mret (c d !! i).

(** [Model.findOne(query)]: some document matching the query, if any. *)
Definition findOne {D} (c : Db → gmap ObjectId D) (query : D → bool)
  : Async (option (ObjectId * D)) :=
  d ← get_db; mret (List.find (λ kv, query kv.2) (map_to_list (c d))).

(** The order of [sort({ createdAt: -1 })]. *)
Definition newest_first {D} (createdAt : D → nat) (x y : ObjectId * D) : Prop :=
  createdAt y.2 ≤ createdAt x.2.

#[global] Instance newest_first_dec {D} (createdAt : D → nat) x y :
  Decision (newest_first createdAt x y).
Proof. unfold newest_first. apply _. Defined.

(** [Model.find(query).sort({ createdAt: -1 })]. *)
Definition find_sorted {D} (c : Db → gmap ObjectId D) (query : D → bool)
    (createdAt : D → nat) : Async (list (ObjectId * D)) :=
  d ← get_db;
  mret (merge_sort (newest_first createdAt)
          (List.filter (λ kv, query kv.2) (map_to_list (c d)))).

(** [doc.populate('postedBy', 'username')]. *)
Definition populated {D} (d : Db) (postedBy : D → ObjectId) (ix : ObjectId * D)
  : Populated D :=
  {| doc_id := ix.1; doc := ix.2;
     doc_postedBy :=
       (λ u, (postedBy ix.2, User.username u)) <$> users d !! postedBy ix.2 |}.

Definition populate {D} (postedBy : D → ObjectId) (ix : ObjectId * D)
  : Async (Populated D) :=
  d ← get_db; mret (populated d postedBy ix).

Definition populate_all {D} (postedBy : D → ObjectId) (l : list (ObjectId * D))
  : Async (list (Populated D)) :=
  d ← get_db; mret (populated d postedBy <$> l).

Definition with_users (d : Db) m := mkDb m (problems d) (solutions d) (comments d).
Definition with_problems (d : Db) m := mkDb (users d) m (solutions d) (comments d).
Definition with_solutions (d : Db) m := mkDb (users d) (problems d) m (comments d).
Definition with_comments (d : Db) m := mkDb (users d) (problems d) (solutions d) m.

(** [doc.save()] on a document that passed validation or was loaded. *)
Definition write_User (i : ObjectId) (x : User.t) : Async unit :=
  d ← get_db; set_db (with_users d (<[i := x]> (users d)));; emit (DbSave Users i).
Definition write_Problem (i : ObjectId) (x : Problem.t) : Async unit :=
  d ← get_db; set_db (with_problems d (<[i := x]> (problems d)));; emit (DbSave Problems i).
Definition write_Solution (i : ObjectId) (x : Solution.t) : Async unit :=
  d ← get_db; set_db (with_solutions d (<[i := x]> (solutions d)));; emit (DbSave Solutions i).
Definition write_Comment (i : ObjectId) (x : Comment.t) : Async unit :=
  d ← get_db; set_db (with_comments d (<[i := x]> (comments d)));; emit (DbSave Comments i).

(** [Problem.findByIdAndDelete(id)]. *)
Definition findByIdAndDelete_Problem (i : ObjectId) : Async unit :=
  d ← get_db; set_db (with_problems d (delete i (problems d)));; emit (DbDelete Problems i).

(** [new User({...})] followed by [save()]: the schema's required paths are
    validated, then the document is stored with its defaults. *)
Definition create_User (amb : Ambient) (username email password : option string)
  : Async (ObjectId * User.t) :=
  i ← new_ObjectId;
  let invalid :=
    ValidationError "User"
      (failing_paths [("username", username); ("email", email); ("password", password)]) in
  match username, email, password with
  | Some u, Some e, Some p =>
      if Js.truthy u && Js.truthy e && Js.truthy p then
        let x := User.mk u e p (now amb) in
        write_User i x;; mret (i, x)
      else throw invalid
  | _, _, _ => throw invalid
  end.

Definition create_Problem (amb : Ambient) (title description location : option string)
    (image : option string) (postedBy : ObjectId) : Async (ObjectId * Problem.t) :=
  i ← new_ObjectId;
  let invalid :=
    ValidationError "Problem"
      (failing_paths [("title", title); ("description", description);
                      ("location", location)]) in
  match title, description, location with
  | Some t, Some de, Some l =>
      if Js.truthy t && Js.truthy de && Js.truthy l then
        let x := Problem.mk t de l image postedBy (now amb) open in
        write_Problem i x;; mret (i, x)
      else throw invalid
  | _, _, _ => throw invalid
  end.

Definition create_Solution (amb : Ambient) (description : option string)
    (problemId postedBy : ObjectId) : Async (ObjectId * Solution.t) :=
  i ← new_ObjectId;
  match description with
  | Some de =>
      if Js.truthy de then
        let x := Solution.mk de problemId postedBy [] (now amb) in
        write_Solution i x;; mret (i, x)
      else throw (ValidationError "Solution" ["description"])
  | None => throw (ValidationError "Solution" ["description"])
  end.

Definition create_Comment (amb : Ambient) (text : option string)
    (solutionId postedBy : ObjectId) : Async (ObjectId * Comment.t) :=
  i ← new_ObjectId;
  match text with
  | Some t =>
      if Js.truthy t then
        let x := Comment.mk t solutionId postedBy (now amb) in
        write_Comment i x;; mret (i, x)
      else throw (ValidationError "Comment" ["text"])
  | None => throw (ValidationError "Comment" ["text"])
  end.

End Mongoose.

(** How one text field of a problem relates to the request after an update,
    first as partial-update semantics would have it, then as [||] has it. *)
Definition provided_wins (provided : option string) (old new : string) : Prop :=
  (∀ v, provided = Some v → new = v) ∧ (provided = None → new = old).

Definition truthy_wins (provided : option string) (old new : string) : Prop :=
  (∀ v, provided = Some v → v ≠ "" → new = v)
  ∧ (provided = None ∨ provided = Some "" → new = old).

(** ** The application *)

Section Server.
Context {bcrypt : Bcrypt} {jwt : Jwt} {cloudinary : Cloudinary}.

(** [bcrypt.hash(password, rounds)]: rejects when [password] is no string. *)
Definition hash (amb : Ambient) (password : option string) (rounds : nat) : Async string :=
  match password with
  | Some p => mret (bcrypt_hash p rounds (entropy amb))
  | None => throw BcryptError
  end.

(** [bcrypt.compare(password, hashed)]. *)
Definition compare (password : option string) (hashed : string) : Async bool :=
  match password with
  | Some p => mret (bcrypt_compare p hashed)
  | None => throw BcryptError
  end.

Definition uploadToCloudinary (file : File) : Async string :=
  h ← history;
  emit (CloudUpload file);;
  await (uploader_upload_stream h file).

(** [cloudinary.uploader.destroy(public_id)]. *)
Definition destroy (public_id : string) : Async unit :=
  h ← history;
  emit (CloudDestroy public_id);;
  await (uploader_destroy h public_id).

(** [image.split('/').pop().split('.')[0]]. *)
Definition publicId_of (image : string) : option string :=
  segment ← Js.pop (Js.split "/" image);
  head (Js.split "." segment).

(** The [try { ... destroy ... } catch (error) { console.error(...) }] block
    shared by update and delete. *)
Definition destroy_image (label : string) (image : string) : Async unit :=
  try_catch
    (match publicId_of image with
     | Some publicId => destroy ("crowdsolve/" +:+ publicId)
     | None => throw TypeError
     end)
    (λ error, emit (ConsoleError label error)).

(** [authHeader && authHeader.split(' ')[1]]. *)
Definition bearer_token (req : Request) : option string :=
  let authHeader := req_headers req !! "authorization" in
  if Js.truthy_opt authHeader
  then h ← authHeader; Js.split " " h !! 1
  else authHeader.

Definition authenticateToken (amb : Ambient) (req : Request)
    (next : Claims → Async Response) : Async Response :=
  match bearer_token req with
  | Some token =>
      if Js.truthy token then
        match jwt_verify token (now amb) with
        | None => res_json 403 (Message "Invalid token")
        | Some user => next user
        end
      else res_json 401 (Message "Access token required")
  | None => res_json 401 (Message "Access token required")
  end.

(** The request carries a token that [jwt.verify] accepts: the middleware
    lets it through with [req.user = user]. *)
Definition authenticated_as (amb : Ambient) (req : Request) (user : Claims) : Prop :=
  ∃ token, bearer_token req = Some token ∧ Js.truthy token = true
           ∧ jwt_verify token (now amb) = Some user.

Definition server_error (error : Error) : Async Response :=
  res_json 500 (ServerError "Server error" error).

Definition GET_health (amb : Ambient) (req : Request) : Async Response :=
  res_json 200 (Health "Backend is running successfully!" "OK" (now amb) "1.0.0").

Definition POST_auth_register (amb : Ambient) (req : Request) : Async Response :=
  try_catch
    (let username := req_body req !! "username" in
     let email := req_body req !! "email" in
     let password := req_body req !! "password" in
     existingUser ← Mongoose.findOne users
       (λ u, bool_decide (email = Some (User.email u))
             || bool_decide (username = Some (User.username u)));
     match existingUser with
     | Some _ => res_json 400 (Message "User already exists")
     | None =>
         hashedPassword ← hash amb password 10;
         '(i, user) ← Mongoose.create_User amb username email (Some hashedPassword);
         let token :=
           jwt_sign {| userId := i; username := User.username user |} "24h" (now amb) in
         res_json 201
           (Authenticated "User created successfully" token
              {| id := i; summary_username := User.username user;
                 summary_email := User.email user |})
     end)
    server_error.

Definition POST_auth_login (amb : Ambient) (req : Request) : Async Response :=
  try_catch
    (let email := req_body req !! "email" in
     let password := req_body req !! "password" in
     user ← Mongoose.findOne users (λ u, bool_decide (email = Some (User.email u)));
     match user with
     | None => res_json 400 (Message "Invalid credentials")
     | Some (i, user) =>
         isValidPassword ← compare password (User.password user);
         if negb isValidPassword then res_json 400 (Message "Invalid credentials")
         else
           let token :=
             jwt_sign {| userId := i; username := User.username user |} "24h" (now amb) in
           res_json 200
             (Authenticated "Login successful" token
                {| id := i; summary_username := User.username user;
                   summary_email := User.email user |})
     end)
    server_error.

Definition GET_problems (amb : Ambient) (req : Request) : Async Response :=
  try_catch
    (found ← Mongoose.find_sorted problems (λ _, true) Problem.createdAt;
     result ← Mongoose.populate_all Problem.postedBy found;
     res_json 200 (ProblemList result))
    server_error.

Definition POST_problems (amb : Ambient) (req : Request) : Async Response :=
  authenticateToken amb req (λ user,
    try_catch
      (let title := req_body req !! "title" in
       let description := req_body req !! "description" in
       let location := req_body req !! "location" in
       imageUrl ← match req_file req with
                  | Some file => secure_url ← uploadToCloudinary file; mret (Some secure_url)
                  | None => mret None
                  end;
       problem ← Mongoose.create_Problem amb title description location imageUrl
                   (userId user);
       result ← Mongoose.populate Problem.postedBy problem;
       res_json 201 (ProblemDoc result))
      server_error).

Definition GET_problem (amb : Ambient) (req : Request) : Async Response :=
  try_catch
    (problem ← Mongoose.findById problems (req_params_id req);
     match problem with
     | None => res_json 404 (Message "Problem not found")
     | Some problem =>
         result ← Mongoose.populate Problem.postedBy (req_params_id req, problem);
         res_json 200 (ProblemDoc result)
     end)
    server_error.

Definition PUT_problem (amb : Ambient) (req : Request) : Async Response :=
  authenticateToken amb req (λ user,
    try_catch
      (let title := req_body req !! "title" in
       let description := req_body req !! "description" in
       let location := req_body req !! "location" in
       problem ← Mongoose.findById problems (req_params_id req);
       match problem with
       | None => res_json 404 (Message "Problem not found")
       | Some problem =>
           if negb (bool_decide (Problem.postedBy problem = userId user)) then
             res_json 403 (Message "Not authorized to edit this problem")
           else
             let problem := Problem.set_title problem (Js.or title (Problem.title problem)) in
             let problem :=
               Problem.set_description problem
                 (Js.or description (Problem.description problem)) in
             let problem :=
               Problem.set_location problem (Js.or location (Problem.location problem)) in
             problem ← match req_file req with
                       | Some file =>
                           match Problem.image problem with
                           | Some image =>
                               if Js.truthy image then
                                 destroy_image "Error deleting old image from Cloudinary:" image
                               else mret tt
                           | None => mret tt
                           end;;
                           secure_url ← uploadToCloudinary file;
                           mret (Problem.set_image problem (Some secure_url))
                       | None => mret problem
                       end;
             Mongoose.write_Problem (req_params_id req) problem;;
             result ← Mongoose.populate Problem.postedBy (req_params_id req, problem);
             res_json 200 (ProblemDoc result)
       end)
      server_error).

Definition DELETE_problem (amb : Ambient) (req : Request) : Async Response :=
  authenticateToken amb req (λ user,
    try_catch
      (problem ← Mongoose.findById problems (req_params_id req);
       match problem with
       | None => res_json 404 (Message "Problem not found")
       | Some problem =>
           if negb (bool_decide (Problem.postedBy problem = userId user)) then
             res_json 403 (Message "Not authorized to delete this problem")
           else
             match Problem.image problem with
             | Some image =>
                 if Js.truthy image then
                   destroy_image "Error deleting image from Cloudinary:" image
                 else mret tt
             | None => mret tt
             end;;
             Mongoose.findByIdAndDelete_Problem (req_params_id req);;
             res_json 200 (Message "Problem deleted successfully")
       end)
      server_error).

Definition GET_problem_solutions (amb : Ambient) (req : Request) : Async Response :=
  try_catch
    (found ← Mongoose.find_sorted solutions
               (λ s, bool_decide (Solution.problemId s = req_params_id req))
               Solution.createdAt;
     result ← Mongoose.populate_all Solution.postedBy found;
     res_json 200 (SolutionList result))
    server_error.

Definition POST_problem_solutions (amb : Ambient) (req : Request) : Async Response :=
  authenticateToken amb req (λ user,
    try_catch
      (let description := req_body req !! "description" in
       solution ← Mongoose.create_Solution amb description (req_params_id req)
                    (userId user);
       result ← Mongoose.populate Solution.postedBy solution;
       res_json 201 (SolutionDoc result))
      server_error).

Definition POST_solution_upvote (amb : Ambient) (req : Request) : Async Response :=
  authenticateToken amb req (λ user,
    try_catch
      (solution ← Mongoose.findById solutions (req_params_id req);
       match solution with
       | None => res_json 404 (Message "Solution not found")
       | Some solution =>
           let userId := userId user in
           let upvoteIndex := Js.indexOf (Solution.upvotes solution) userId in
           let solution :=
             if (upvoteIndex >? -1)%Z then
               Solution.set_upvotes solution
                 (Js.splice1 upvoteIndex (Solution.upvotes solution))
             else
               Solution.set_upvotes solution (Js.push (Solution.upvotes solution) userId) in
           Mongoose.write_Solution (req_params_id req) solution;;
           res_json 200
             (Upvotes (length (Solution.upvotes solution)) (upvoteIndex =? -1)%Z)
       end)
      server_error).

Definition GET_solution_comments (amb : Ambient) (req : Request) : Async Response :=
  try_catch
    (found ← Mongoose.find_sorted comments
               (λ c, bool_decide (Comment.solutionId c = req_params_id req))
               Comment.createdAt;
     result ← Mongoose.populate_all Comment.postedBy found;
     res_json 200 (CommentList result))
    server_error.

Definition POST_solution_comments (amb : Ambient) (req : Request) : Async Response :=
  authenticateToken amb req (λ user,
    try_catch
      (let text := req_body req !! "text" in
       comment ← Mongoose.create_Comment amb text (req_params_id req) (userId user);
       result ← Mongoose.populate Comment.postedBy comment;
       res_json 201 (CommentDoc result))
      server_error).

(** The routes registered on [app]. *)
Inductive Route :=
  | Get_health
  | Post_auth_register
  | Post_auth_login
  | Get_problems
  | Post_problems
  | Get_problem
  | Put_problem
  | Delete_problem
  | Get_problem_solutions
  | Post_problem_solutions
  | Post_solution_upvote
  | Get_solution_comments
  | Post_solution_comments.

Definition app (r : Route) : Ambient → Request → Async Response :=
  match r with
  | Get_health => GET_health
  | Post_auth_register => POST_auth_register
  | Post_auth_login => POST_auth_login
  | Get_problems => GET_problems
  | Post_problems => POST_problems
  | Get_problem => GET_problem
  | Put_problem => PUT_problem
  | Delete_problem => DELETE_problem
  | Get_problem_solutions => GET_problem_solutions
  | Post_problem_solutions => POST_problem_solutions
  | Post_solution_upvote => POST_solution_upvote
  | Get_solution_comments => GET_solution_comments
  | Post_solution_comments => POST_solution_comments
  end.

(** One request served to completion: requests are served one at a time. *)
Definition serve (r : Route) (amb : Ambient) (req : Request) (w : World) : World :=
  (app r amb req w).2.

(** The worlds the API can reach from an empty database. *)
Inductive reachable : World → Prop :=
  | reachable_initial : reachable initial_world
  | reachable_serve w r amb req :
      reachable w → reachable (serve r amb req w).

(** The worlds that follow a given one. *)
Inductive later (w : World) : World → Prop :=
  | later_refl : later w w
  | later_serve w' r amb req :
      later w w' → later w (serve r amb req w').

(** Partial-update semantics for the three text fields of a problem, for
    every update its owner is authorised to make. *)
Definition partial_update_as_specified : Prop :=
  ∀ amb req user w P,
    authenticated_as amb req user →
    problems (db w) !! req_params_id req = Some P →
    Problem.postedBy P = userId user →
    ∃ P', problems (db (serve Put_problem amb req w)) !! req_params_id req = Some P'
      ∧ provided_wins (req_body req !! "title") (Problem.title P) (Problem.title P')
      ∧ provided_wins (req_body req !! "description")
          (Problem.description P) (Problem.description P')
      ∧ provided_wins (req_body req !! "location")
          (Problem.location P) (Problem.location P').

End Server.

(** ** What holds of every world the API can reach *)

Record consistent (w : World) : Prop := {
  problems_open : ∀ i P, problems (db w) !! i = Some P → Problem.status P = open;
  problems_fresh : ∀ i P, problems (db w) !! i = Some P → i < next_id w;
  upvotes_NoDup : ∀ i sol, solutions (db w) !! i = Some sol → NoDup (Solution.upvotes sol);
  emails_unique : ∀ i j u v,
    users (db w) !! i = Some u → users (db w) !! j = Some v →
    User.email u = User.email v → i = j }.

(** The upvote toggle as a function on the upvoters: a present user is
    removed, an absent one is appended. *)
Definition toggled (u : ObjectId) (upvotes : list ObjectId) : list ObjectId :=
  if decide (u ∈ upvotes) then filter (λ v, v ≠ u) upvotes else upvotes ++ [u].

(** ** A small deployment to run the handlers on *)

Module Sample.

Definition bcrypt : Bcrypt :=
  {| bcrypt_hash p rounds salt := "$2a$" +:+ p;
     bcrypt_compare p hashed := bool_decide (hashed = "$2a$" +:+ p) |}.

Definition alice : Claims := {| userId := 0; username := "alice" |}.
Definition bob : Claims := {| userId := 1; username := "bob" |}.

Definition jwt : Jwt :=
  {| jwt_sign c expiresIn t := username c;
     jwt_verify token t :=
       if bool_decide (token = "alice") then Some alice
       else if bool_decide (token = "bob") then Some bob
       else None |}.

Definition secure_url : string :=
  "https://res.cloudinary.com/demo/image/upload/v1/crowdsolve/pothole.jpg".

(** Uploads of an empty buffer are refused; everything else succeeds. *)
Definition cloudinary : Cloudinary :=
  {| uploader_upload_stream h f :=
       match buffer f with
       | [] => Rejected (CloudinaryError "Empty file")
       | _ => Resolved secure_url
       end;
     uploader_destroy h public_id := Resolved () |}.

Definition run := serve (bcrypt := bcrypt) (jwt := jwt) (cloudinary := cloudinary).

Definition clock : Ambient := {| now := 1000; entropy := 7 |}.

Definition photo : File := {| buffer := [Byte.xff; Byte.xd8; Byte.xff] |}.
Definition empty_file : File := {| buffer := [] |}.

Definition request (token : string) (i : ObjectId) (fields : list (string * string))
    (f : option File) : Request :=
  {| req_headers := {[ "authorization" := "Bearer " +:+ token ]};
     req_params_id := i;
     req_body := list_to_map fields;
     req_file := f |}.

Definition anonymous (fields : list (string * string)) : Request :=
  {| req_headers := ∅; req_params_id := 0; req_body := list_to_map fields;
     req_file := None |}.

Definition register_alice : Request :=
  anonymous [("username", "alice"); ("email", "alice@example.org"); ("password", "wonderland")].
Definition register_bob : Request :=
  anonymous [("username", "bob"); ("email", "bob@example.org"); ("password", "builder")].

Definition report_pothole : Request :=
  request "alice" 0
    [("title", "Pothole"); ("description", "Deep pothole"); ("location", "Main St")]
    (Some photo).

Definition propose_fix : Request := request "bob" 2 [("description", "Fill it")] None.

(** Alice and Bob have registered. *)
Definition registered : World :=
  run Post_auth_register clock register_bob
    (run Post_auth_register clock register_alice initial_world).

(** Alice has reported a problem with a photo: it is document 2. *)
Definition reported : World := run Post_problems clock report_pothole registered.

(** Bob has proposed a solution: it is document 3. *)
Definition proposed : World := run Post_problem_solutions clock propose_fix reported.

Definition pothole : Problem.t :=
  Problem.mk "Pothole" "Deep pothole" "Main St" (Some secure_url) 0 1000 open.

Definition filling : Solution.t := Solution.mk "Fill it" 2 1 [] 1000.

Definition bob_account : User.t :=
  User.mk "bob" "bob@example.org" "$2a$builder" 1000.

(** Requests made against these worlds. *)
Definition rename_by_bob : Request := request "bob" 2 [("title", "Crater")] None.
Definition rename_by_alice : Request := request "alice" 2 [("title", "Crater")] None.
Definition blank_title_by_alice : Request := request "alice" 2 [("title", "")] None.
Definition new_photo_by_alice : Request :=
  request "alice" 2 [("title", "Crater")] (Some empty_file).
Definition delete_by_alice : Request := request "alice" 2 [] None.
Definition report_with_empty_file : Request :=
  request "alice" 0
    [("title", "Pothole"); ("description", "Deep pothole"); ("location", "Main St")]
    (Some empty_file).
Definition upvote_by_alice : Request := request "alice" 3 [] None.
Definition login_unknown : Request :=
  anonymous [("email", "carol@example.org"); ("password", "builder")].
Definition login_bob_wrong_password : Request :=
  anonymous [("email", "bob@example.org"); ("password", "wonderland")].

Definition read (i : ObjectId) : Request :=
  {| req_headers := ∅; req_params_id := i; req_body := ∅; req_file := None |}.
Definition report_unsigned : Request :=
  anonymous [("title", "Pothole"); ("description", "Deep pothole"); ("location", "Main St")].
Definition report_by_mallory : Request :=
  request "mallory" 0
    [("title", "Pothole"); ("description", "Deep pothole"); ("location", "Main St")] None.
Definition report_untitled : Request :=
  request "alice" 0 [("description", "Deep pothole"); ("location", "Main St")] (Some photo).
Definition rename_missing_by_alice : Request := request "alice" 9 [("title", "Crater")] None.
Definition delete_by_bob : Request := request "bob" 2 [] None.
Definition new_photo : Request := request "alice" 2 [] (Some photo).
Definition comment_by_bob : Request := request "bob" 3 [("text", "Agreed")] None.
Definition upvote_by_bob : Request := request "bob" 3 [] None.
Definition login_bob : Request :=
  anonymous [("email", "bob@example.org"); ("password", "builder")].
Definition login_bob_no_password : Request := anonymous [("email", "bob@example.org")].
Definition login_carol_no_password : Request := anonymous [("email", "carol@example.org")].
Definition register_carol : Request :=
  anonymous [("username", "carol"); ("email", "carol@example.org"); ("password", "croquet")].

(** Alice has upvoted Bob's solution. *)
Definition upvoted : World := run Post_solution_upvote clock upvote_by_alice proposed.

Definition pothole_document : Populated Problem.t :=
  {| doc_id := 2; doc := pothole; doc_postedBy := Some (0, "alice") |}.

End Sample.

(** ** Routes, events and worlds by kind *)

(** The routes registered behind [authenticateToken]. *)
Definition protected (r : Route) : bool :=
  match r with
  | Post_problems | Put_problem | Delete_problem
  | Post_problem_solutions | Post_solution_upvote | Post_solution_comments => true
  | _ => false
  end.

(** The routes whose handlers only read. *)
Definition read_only (r : Route) : bool :=
  match r with
  | Get_health | Post_auth_login | Get_problems | Get_problem
  | Get_problem_solutions | Get_solution_comments => true
  | _ => false
  end.

(** [s.includes(c)] for a one-character [c]. *)
Fixpoint includes (c : ascii) (s : string) : bool :=
  match s with
  | EmptyString => false
  | String c' rest => Ascii.eqb c' c || includes c rest
  end.

Definition is_save (e : Event) : bool :=
  match e with DbSave _ _ => true | _ => false end.

(** Every stored document got its [_id] from the generator. *)
Record ids_generated (w : World) : Prop := {
  users_generated : ∀ i x, users (db w) !! i = Some x → i < next_id w;
  solutions_generated : ∀ i x, solutions (db w) !! i = Some x → i < next_id w;
  comments_generated : ∀ i x, comments (db w) !! i = Some x → i < next_id w }.

Definition usernames_unique (w : World) : Prop :=
  ∀ i j u v,
    users (db w) !! i = Some u → users (db w) !! j = Some v →
    User.username u = User.username v → i = j.

(** What a listing of a collection is: the stored documents that match,
    each once, none older before a newer one. *)
Definition lists {D} (stored : gmap ObjectId D) (query : D → bool)
    (createdAt : D → nat) (found : list (ObjectId * D)) : Prop :=
  (∀ i x, (i, x) ∈ found ↔ stored !! i = Some x ∧ query x = true)
  ∧ StronglySorted (Mongoose.newest_first createdAt) found
  ∧ NoDup found.*1.

(** [publicId] is the name of the file that the reference [image] ends
    in: [image] is [publicId], an optional extension that starts at the
    first dot, and before them an optional directory part that ends at the
    last slash. A reference has exactly one such name. *)
Definition file_name_of (image publicId : string) : Prop :=
  ∃ prefix tail,
    image = prefix +:+ publicId +:+ tail
    ∧ includes "/" publicId = false
    ∧ includes "." publicId = false
    ∧ includes "/" tail = false
    ∧ (prefix = "" ∨ ∃ dir, prefix = dir +:+ "/")
    ∧ (tail = "" ∨ ∃ ext, tail = "." +:+ ext).

(** The statuses a handler answers with. *)
Definition statuses : list nat := [200; 201; 400; 401; 403; 404; 500].

(** ** Facts about the JavaScript helpers *)

Section JsFacts.
Context {A : Type} `{EqDecision A}.
Implicit Types (a : list A) (x : A) (k : Z).

Lemma indexOf_from_absent a x k :
  (0 ≤ k)%Z → Js.indexOf_from a x k = (-1)%Z ↔ x ∉ a.
Proof.
  revert k. induction a as [|y a IH]; intros k Hk; cbn.
  - split; [intros _; apply not_elem_of_nil | done].
  - rewrite not_elem_of_cons. case_decide as Hxy.
    + split; [lia | intros [? _]; done].
    + rewrite IH by lia. split; [done | by intros [_ ?]].
Qed.

Lemma indexOf_from_range a x k :
  (0 ≤ k)%Z → Js.indexOf_from a x k = (-1)%Z
              ∨ (k ≤ Js.indexOf_from a x k < k + Z.of_nat (length a))%Z.
Proof.
  revert k. induction a as [|y a IH]; intros k Hk; cbn; [by left|].
  case_decide; [right; lia|].
  destruct (IH (k + 1)%Z) as [->|?]; [lia | by left | right; lia].
Qed.

Lemma filter_absent a x : x ∉ a → filter (λ y, y ≠ x) a = a.
Proof.
  induction a as [|y a IH]; [done|]. rewrite not_elem_of_cons. intros [Hxy Hx].
  rewrite filter_cons_True by done. by rewrite IH.
Qed.

(** Removing the first occurrence from a list without repetitions removes
    the element. *)
Lemma delete_indexOf_from a x k :
  (0 ≤ k)%Z → NoDup a → x ∈ a →
  delete (Z.to_nat (Js.indexOf_from a x k - k)) a = filter (λ y, y ≠ x) a.
Proof.
  revert k. induction a as [|y a IH]; intros k Hk Hnd Hin; [by apply elem_of_nil in Hin|].
  apply NoDup_cons in Hnd as [Hy Hnd]. unfold Js.indexOf_from; fold (@Js.indexOf_from A _).
  case_decide as Hxy.
  - subst y. replace (Z.to_nat (k - k)) with 0 by lia.
    rewrite filter_cons_False by (by intros ?). by rewrite filter_absent.
  - apply elem_of_cons in Hin as [?|Hin]; [done|].
    rewrite filter_cons_True by (by intros ->).
    destruct (indexOf_from_range a x (k + 1)) as [E|R]; [lia| |].
    { apply indexOf_from_absent in E; [done | lia]. }
    replace (Z.to_nat (Js.indexOf_from a x (k + 1) - k))
      with (S (Z.to_nat (Js.indexOf_from a x (k + 1) - (k + 1)))) by lia.
    cbn. f_equal. apply IH; [lia | done | done].
Qed.

Lemma splice1_indexOf a x :
  NoDup a → x ∈ a → Js.splice1 (Js.indexOf a x) a = filter (λ y, y ≠ x) a.
Proof.
  intros Hnd Hin. unfold Js.splice1, Js.indexOf.
  rewrite <- (delete_indexOf_from a x 0) by done. f_equal. lia.
Qed.

Lemma indexOf_absent a x : Js.indexOf a x = (-1)%Z ↔ x ∉ a.
Proof. by apply indexOf_from_absent. Qed.

Lemma indexOf_present a x : (Js.indexOf a x >? -1)%Z = true ↔ x ∈ a.
Proof.
  rewrite Z.gtb_gt. destruct (decide (x ∈ a)) as [Hin|Hout].
  - split; [done|intros _].
    destruct (indexOf_from_range a x 0) as [E|R]; [lia| |unfold Js.indexOf; lia].
    by apply indexOf_absent in E.
  - apply indexOf_absent in Hout as E. rewrite E. split; [lia|done].
Qed.

Lemma NoDup_splice1 a k : NoDup a → NoDup (Js.splice1 k a).
Proof. intros Hnd. apply (sublist_NoDup _ a Hnd), sublist_delete. Qed.

Lemma NoDup_push a x : NoDup a → x ∉ a → NoDup (Js.push a x).
Proof.
  intros Hnd Hx. unfold Js.push. apply NoDup_app. split_and!; [done| |apply NoDup_singleton].
  intros y Hy ->%list_elem_of_singleton. done.
Qed.
End JsFacts.

Lemma split_not_nil sep s : Js.split sep s ≠ [].
Proof.
  destruct s as [|c s]; cbn; [done|].
  destruct (Ascii.eqb c sep); [done|]. by destruct (Js.split sep s).
Qed.

Lemma split_without_separator sep s : includes sep s = false → Js.split sep s = [s].
Proof.
  induction s as [|c s IH]; cbn; [done|].
  intros [Hc Hs]%orb_false_iff. rewrite Hc. by rewrite (IH Hs).
Qed.

Lemma split_around_separator sep a b :
  Js.split sep (a +:+ String sep b) = Js.split sep a ++ Js.split sep b.
Proof.
  induction a as [|c a IH].
  - change ("" +:+ String sep b) with (String sep b). cbn.
    by rewrite Ascii.eqb_refl.
  - change (String c a +:+ String sep b) with (String c (a +:+ String sep b)). cbn.
    rewrite IH. destruct (Ascii.eqb c sep); [done|].
    destruct (Js.split sep a) eqn:E; [by apply split_not_nil in E | done].
Qed.

Lemma includes_app c a b : includes c (a +:+ b) = includes c a || includes c b.
Proof.
  induction a as [|c' a IH]; [done|].
  change (String c' a +:+ b) with (String c' (a +:+ b)). cbn.
  by rewrite IH, orb_assoc.
Qed.

Lemma append_empty_r s : s +:+ "" = s.
Proof.
  induction s as [|c s IH]; [done|].
  change (String c s +:+ "") with (String c (s +:+ "")). by rewrite IH.
Qed.

Lemma append_assoc a b c : (a +:+ b) +:+ c = a +:+ b +:+ c.
Proof.
  induction a as [|x a IH]; [done|].
  change (String x a +:+ b) with (String x (a +:+ b)).
  change (String x (a +:+ b) +:+ c) with (String x ((a +:+ b) +:+ c)).
  by rewrite IH.
Qed.

(** The last piece of a split: it holds no separator and the string ends in
    it, right after the last separator if there is one. *)
Lemma split_last sep s :
  ∃ seg, last (Js.split sep s) = Some seg
         ∧ includes sep seg = false
         ∧ (s = seg ∨ ∃ dir, s = dir +:+ String sep seg).
Proof.
  induction s as [|c s (seg & Hlast & Hseg & Hs)]; [exists ""; cbn; auto|].
  cbn [Js.split]. destruct (Ascii.eqb c sep) eqn:Hc.
  - apply Ascii.eqb_eq in Hc as ->. exists seg. split_and!; [|done|].
    + destruct (Js.split sep s) eqn:E; [by apply split_not_nil in E | done].
    + right. destruct Hs as [->|[dir ->]]; [by exists "" | by exists (String sep dir)].
  - destruct (Js.split sep s) as [|piece pieces] eqn:E; [by apply split_not_nil in E|].
    destruct Hs as [->|[dir ->]].
    + rewrite (split_without_separator _ _ Hseg) in E. injection E as <- <-.
      exists (String c seg). cbn. rewrite Hc, Hseg. auto.
    + rewrite split_around_separator, (split_without_separator _ _ Hseg) in E.
      exists seg. split_and!; [|done|by right; exists (String c dir)].
      destruct pieces as [|piece' pieces].
      * destruct (Js.split sep dir) as [|? [|]] eqn:E'; [by apply split_not_nil in E'|..];
          discriminate E.
      * exact Hlast.
Qed.

(** The first piece of a split: it holds no separator and the string starts
    with it, right before the first separator if there is one. *)
Lemma split_head sep s :
  ∃ h, head (Js.split sep s) = Some h
       ∧ includes sep h = false
       ∧ (s = h ∨ ∃ rest, s = h +:+ String sep rest).
Proof.
  induction s as [|c s (h & Hhead & Hh & Hs)]; [exists ""; cbn; auto|].
  cbn [Js.split]. destruct (Ascii.eqb c sep) eqn:Hc.
  - apply Ascii.eqb_eq in Hc as ->. exists "". split_and!; [done | done |].
    right. by exists s.
  - destruct (Js.split sep s) as [|piece pieces] eqn:E; [by apply split_not_nil in E|].
    cbn in Hhead. injection Hhead as ->.
    exists (String c h). cbn. rewrite Hc, Hh. split_and!; [done | done |].
    destruct Hs as [->|[rest ->]]; [by left | right; by exists rest].
Qed.


(** What [image.split('/').pop().split('.')[0]] returns is the name of the
    file the reference ends in, and nothing else is. *)
Lemma publicId_of_names_file image publicId :
  publicId_of image = Some publicId → file_name_of image publicId.
Proof.
  unfold publicId_of, Js.pop.
  destruct (split_last "/" image) as (seg & -> & Hseg & Himage). cbn [mbind option_bind].
  destruct (split_head "." seg) as (h & -> & Hh & Hsegment). intros [= <-].
  assert (includes "/" h = false
          ∧ ∃ tail, seg = h +:+ tail ∧ includes "/" tail = false
                    ∧ (tail = "" ∨ ∃ ext, tail = "." +:+ ext))
    as (Hslash & tail & -> & Htail & Hext).
  { destruct Hsegment as [->|[ext ->]].
    - split; [done|]. exists "". rewrite append_empty_r. auto.
    - rewrite includes_app in Hseg. apply orb_false_iff in Hseg as [Hslash Htail].
      split; [done|]. exists (String "." ext). split_and!; [done | done |].
      right. by exists ext. }
  destruct Himage as [->|[dir ->]].
  - exists "", tail. split_and!; auto.
  - exists (dir +:+ "/"), tail.
    split_and!; [|done|done|done|right; by exists dir|done].
    by rewrite append_assoc.
Qed.

Lemma file_name_publicId_of image publicId :
  file_name_of image publicId → publicId_of image = Some publicId.
Proof.
  intros (prefix & tail & -> & Hslash & Hdot & Htail & Hprefix & Hext).
  assert (includes "/" (publicId +:+ tail) = false) as Hseg
    by (by rewrite includes_app, Hslash, Htail).
  assert (last (Js.split "/" (prefix +:+ publicId +:+ tail)) = Some (publicId +:+ tail))
    as Hlast.
  { destruct Hprefix as [->|[dir ->]].
    - change ("" +:+ publicId +:+ tail) with (publicId +:+ tail).
      by rewrite split_without_separator.
    - rewrite append_assoc.
      change ("/" +:+ publicId +:+ tail) with (String "/" (publicId +:+ tail)).
      rewrite split_around_separator, (split_without_separator "/" (publicId +:+ tail))
        by done.
      apply last_snoc. }
  unfold publicId_of, Js.pop. rewrite Hlast. cbn [mbind option_bind].
  destruct Hext as [->|[ext ->]].
  - rewrite append_empty_r. by rewrite split_without_separator.
  - change ("." +:+ ext) with (String "." ext).
    by rewrite split_around_separator, (split_without_separator "." publicId).
Qed.

Lemma file_name_of_unique image a b :
  file_name_of image a → file_name_of image b → a = b.
Proof.
  intros Ha%file_name_publicId_of Hb%file_name_publicId_of. congruence.
Qed.

(** ** Facts about the collections *)

Lemma find_map_to_list_None {D} (c : gmap ObjectId D) (q : D → bool) :
  List.find (λ kv, q kv.2) (map_to_list c) = None →
  ∀ i x, c !! i = Some x → q x = false.
Proof.
  intros Hfind i x Hix.
  apply (find_none _ _ Hfind (i, x)), list_elem_of_In, elem_of_map_to_list, Hix.
Qed.

Lemma find_map_to_list_Some {D} (c : gmap ObjectId D) (q : D → bool) i x :
  List.find (λ kv, q kv.2) (map_to_list c) = Some (i, x) →
  c !! i = Some x ∧ q x = true.
Proof.
  intros [Hin Hq]%find_some. split; [|done].
  by apply elem_of_map_to_list, list_elem_of_In.
Qed.

Lemma find_map_to_list_is_Some {D} (c : gmap ObjectId D) (q : D → bool) i x :
  c !! i = Some x → q x = true →
  is_Some (List.find (λ kv, q kv.2) (map_to_list c)).
Proof.
  intros Hix Hq. destruct (List.find _ _) as [kv|] eqn:E; [by eexists|].
  by rewrite (find_map_to_list_None _ _ E i x Hix) in Hq.
Qed.

(** ** Properties of the handlers *)

Section Properties.
Context {bcrypt : Bcrypt} {jwt : Jwt} {cloudinary : Cloudinary}.

(** Unfolds the monad so that a handler runs on a symbolic world. *)
Ltac run :=
  unfold destroy_image, server_error;
  unfold try_catch, res_json, Mongoose.findById, Mongoose.findOne,
    Mongoose.find_sorted, Mongoose.populate_all, Mongoose.populate,
    Mongoose.create_User, Mongoose.create_Problem, Mongoose.create_Solution,
    Mongoose.create_Comment, Mongoose.write_Problem, Mongoose.write_Solution,
    Mongoose.write_User, Mongoose.write_Comment, Mongoose.findByIdAndDelete_Problem,
    hash, compare, uploadToCloudinary, destroy, await, history, emit, set_db,
    get_db, throw, new_ObjectId, mbind, mret, Async_bind, Async_ret;
  cbn [fst snd db trace next_id].

Ltac handlers :=
  unfold GET_health, POST_auth_register, POST_auth_login, GET_problems,
    POST_problems, GET_problem, PUT_problem, DELETE_problem, GET_problem_solutions,
    POST_problem_solutions, POST_solution_upvote, GET_solution_comments,
    POST_solution_comments, authenticateToken.

Lemma authenticateToken_next amb req user next :
  authenticated_as amb req user → authenticateToken amb req next = next user.
Proof.
  intros (token & Hb & Ht & Hv). unfold authenticateToken.
  by rewrite Hb, Ht, Hv.
Qed.

(** The public id is always defined: [split] never yields an empty array. *)
Lemma publicId_of_total image : is_Some (publicId_of image).
Proof.
  unfold publicId_of, Js.pop.
  destruct (last (Js.split "/" image)) as [segment|] eqn:E; cbn.
  - destruct (Js.split "." segment) eqn:E'; [by apply split_not_nil in E' | by eexists].
  - apply last_None in E. by apply split_not_nil in E.
Qed.

(** What the guarded [destroy] does: one call to Cloudinary, and a line on
    the console when that call is rejected. It never throws. *)
Lemma destroy_image_run label image w :
  ∃ publicId, publicId_of image = Some publicId ∧
    destroy_image label image w =
      (Resolved (),
       mkWorld (db w) (next_id w)
         (trace w ++ CloudDestroy ("crowdsolve/" +:+ publicId) ::
            match uploader_destroy (trace w) ("crowdsolve/" +:+ publicId) with
            | Resolved _ => []
            | Rejected error => [ConsoleError label error]
            end)).
Proof.
  destruct (publicId_of_total image) as [publicId E]. exists publicId. split; [done|].
  run. rewrite E.
  destruct (uploader_destroy _ _) as [[]|error]; cbn; [done|].
  by rewrite <- app_assoc.
Qed.

(** *** Every reachable world is consistent *)

Lemma initial_consistent : consistent initial_world.
Proof. split; intros *; cbn; by rewrite ?lookup_empty. Qed.

Lemma serve_consistent r amb req w : consistent w → consistent (serve r amb req w).
Proof.
  intros [Hopen Hfresh Hnd Huniq]. unfold serve, app.
  destruct r; handlers; run.
  all: repeat (case_match; simplify_eq/=).
  all: try (by split).
  all: split; cbn; try done.
  all: try (intros i P Hi; apply Hfresh in Hi; lia).
  all: try (intros i P [[<- <-]|[? Hi]]%lookup_insert_Some; cbn; eauto; fail).
  all: try (intros i P [[<- <-]|[? Hi]]%lookup_insert_Some; cbn;
            [lia || (by eapply Hfresh) | apply Hfresh in Hi; lia]; fail).
  all: try (intros i P [? Hi]%lookup_delete_Some; eauto; fail).
  - (* a new user: nobody stored has this email *)
    match goal with
    | Hfind : List.find (λ kv, bool_decide (?e = _) || bool_decide (?u = _))
                (map_to_list (users (db ?w0))) = None |- _ =>
        pose proof (find_map_to_list_None (users (db w0))
          (λ x, bool_decide (e = Some (User.email x))
                || bool_decide (u = Some (User.username x))) Hfind) as Hnone
    end.
    intros i j u v [[<- <-]|[? Hi]]%lookup_insert_Some
      [[<- <-]|[? Hj]]%lookup_insert_Some Hemail; cbn in *; [done| | |by eauto].
    + apply Hnone in Hj. apply orb_false_iff in Hj as [Hj _].
      rewrite Hemail in Hj. by rewrite bool_decide_eq_true_2 in Hj.
    + apply Hnone in Hi. apply orb_false_iff in Hi as [Hi _].
      rewrite <- Hemail in Hi. by rewrite bool_decide_eq_true_2 in Hi.
  - (* a new solution has no upvotes *)
    intros i S [[<- <-]|[? Hi]]%lookup_insert_Some; cbn; [apply NoDup_nil_2 | eauto].
  - (* an upvote withdrawn *)
    intros i S [[<- <-]|[? Hi]]%lookup_insert_Some; cbn; [|eauto].
    apply NoDup_splice1. eauto.
  - (* an upvote added *)
    intros i S [[<- <-]|[? Hi]]%lookup_insert_Some; cbn; [|eauto].
    apply NoDup_push; [eauto|].
    match goal with
    | Hidx : (Js.indexOf _ _ >? -1)%Z = false |- _ =>
        apply not_true_iff_false in Hidx; by rewrite indexOf_present in Hidx
    end.
Qed.

Lemma reachable_consistent w : reachable w → consistent w.
Proof.
  induction 1 as [|w r amb req _ IH]; [apply initial_consistent | by apply serve_consistent].
Qed.

Lemma later_consistent w w' : consistent w → later w w' → consistent w'.
Proof. intros Hw. induction 1; [done | by apply serve_consistent]. Qed.

(** *** What one request can do to a stored problem *)

Lemma serve_next_id r amb req w : next_id w ≤ next_id (serve r amb req w).
Proof.
  unfold serve, app. destruct r; handlers; run.
  all: repeat (case_match; simplify_eq/=); lia.
Qed.

Lemma later_next_id w w' : later w w' → next_id w ≤ next_id w'.
Proof.
  induction 1 as [|w' r amb req _ IH]; [done|].
  etrans; [exact IH | apply serve_next_id].
Qed.

Lemma serve_problem_kept r amb req w i P P' :
  consistent w →
  problems (db w) !! i = Some P →
  problems (db (serve r amb req w)) !! i = Some P' →
  Problem.postedBy P' = Problem.postedBy P
  ∧ Problem.createdAt P' = Problem.createdAt P
  ∧ Problem.status P' = Problem.status P.
Proof.
  intros [_ Hfresh _ _] HP. unfold serve, app.
  destruct r; handlers; run.
  all: repeat (case_match; simplify_eq/=).
  all: try (intros HP'; by simplify_eq).
  all: try (intros [[<- <-]|[? HP']]%lookup_insert_Some; [|by simplify_eq]).
  all: try (apply Hfresh in HP; lia).
  all: try (by simplify_eq/=).
  all: intros [? HP']%lookup_delete_Some; by simplify_eq.
Qed.

Lemma serve_problem_new r amb req w i P' :
  problems (db w) !! i = None →
  problems (db (serve r amb req w)) !! i = Some P' →
  next_id w ≤ i.
Proof.
  intros HP. unfold serve, app.
  destruct r; handlers; run.
  all: repeat (case_match; simplify_eq/=).
  all: try (intros HP'; by simplify_eq).
  all: try (intros [[<- <-]|[? HP']]%lookup_insert_Some; cbn; congruence || lia).
  all: intros [? HP']%lookup_delete_Some; by simplify_eq.
Qed.

Lemma later_problem_kept w w' i P P' :
  consistent w → later w w' →
  problems (db w) !! i = Some P →
  problems (db w') !! i = Some P' →
  Problem.postedBy P' = Problem.postedBy P
  ∧ Problem.createdAt P' = Problem.createdAt P
  ∧ Problem.status P' = Problem.status P.
Proof.
  intros Hw Hlater HP. revert P'.
  induction Hlater as [|w' r amb req Hlater IH]; intros P' HP'; [by simplify_eq|].
  destruct (problems (db w') !! i) as [Pm|] eqn:Hm.
  - destruct (IH Pm eq_refl) as (Ho & Hc & Hs).
    destruct (serve_problem_kept r amb req w' i Pm P') as (Ho' & Hc' & Hs');
      [by eapply later_consistent | done | done |].
    by rewrite Ho', Hc', Hs'.
  - apply (serve_problem_new r amb req w' i P' Hm) in HP'.
    apply (problems_fresh _ Hw) in HP. apply later_next_id in Hlater. lia.
Qed.

(** *** Updating and deleting a problem *)

(** C1: a PUT on a stored problem by an authenticated user who is not its
    owner answers 403 and leaves the whole world as it was: the problem keeps
    every field, and the trace gains no Cloudinary call (nor anything else). *)
Theorem put_by_non_owner_forbidden amb req user w P :
  authenticated_as amb req user →
  problems (db w) !! req_params_id req = Some P →
  Problem.postedBy P ≠ userId user →
  PUT_problem amb req w
  = (Resolved {| res_status := 403;
                 res_body := Message "Not authorized to edit this problem" |}, w)
  ∧ problems (db (serve Put_problem amb req w)) !! req_params_id req = Some P
  ∧ trace (serve Put_problem amb req w) = trace w.
Proof.
  intros Hauth HP Howner.
  assert (PUT_problem amb req w
    = (Resolved {| res_status := 403;
                   res_body := Message "Not authorized to edit this problem" |}, w)) as E.
  { unfold PUT_problem. rewrite (authenticateToken_next _ _ _ _ Hauth).
    run. rewrite HP. by rewrite bool_decide_eq_false_2. }
  unfold serve, app. by rewrite E.
Qed.

(** C2: when a problem is created with an image attached, the upload is the
    first effect of the request and the only one that can precede the save of
    the new document; if Cloudinary rejects the upload the request answers
    500 with that error and the database is left as it was. *)
Theorem create_uploads_before_saving amb req user w file :
  authenticated_as amb req user →
  req_file req = Some file →
  let w' := serve Post_problems amb req w in
  (trace w' = trace w ++ [CloudUpload file] ∧ db w' = db w
   ∨ trace w' = trace w ++ [CloudUpload file; DbSave Problems (next_id w)])
  ∧ ∀ error, uploader_upload_stream (trace w) file = Rejected error →
      POST_problems amb req w
      = (Resolved {| res_status := 500; res_body := ServerError "Server error" error |},
         mkWorld (db w) (next_id w) (trace w ++ [CloudUpload file])).
Proof.
  intros Hauth Hfile w'. subst w'. unfold serve, app, POST_problems.
  rewrite (authenticateToken_next _ _ _ _ Hauth). run. rewrite Hfile. split.
  - repeat (case_match; simplify_eq/=); rewrite <- ?app_assoc; auto.
  - intros error ->. done.
Qed.

(** C8: deleting a problem that carries an image, by its owner, issues
    exactly one destroy call to Cloudinary, and it is for that image: the
    public id is [crowdsolve/] followed by the name of the file the stored
    reference ends in (its last path segment up to the first dot). A
    rejection of that call only reaches the console; the document is removed
    and the answer is 200 either way. *)
Theorem delete_destroys_image_once amb req user w P image :
  authenticated_as amb req user →
  problems (db w) !! req_params_id req = Some P →
  Problem.postedBy P = userId user →
  Problem.image P = Some image →
  Js.truthy image = true →
  ∃ publicId,
    publicId_of image = Some publicId
    ∧ file_name_of image publicId
    ∧ DELETE_problem amb req w
      = (Resolved {| res_status := 200;
                     res_body := Message "Problem deleted successfully" |},
         mkWorld
           (Mongoose.with_problems (db w) (delete (req_params_id req) (problems (db w))))
           (next_id w)
           (trace w
            ++ [CloudDestroy ("crowdsolve/" +:+ publicId)]
            ++ match uploader_destroy (trace w) ("crowdsolve/" +:+ publicId) with
               | Resolved _ => []
               | Rejected error =>
                   [ConsoleError "Error deleting image from Cloudinary:" error]
               end
            ++ [DbDelete Problems (req_params_id req)])).
Proof.
  intros Hauth HP Howner Himage Htruthy.
  destruct (destroy_image_run "Error deleting image from Cloudinary:" image w)
    as (publicId & Hid & Hrun).
  exists publicId. split; [done|]. split; [by apply publicId_of_names_file|].
  unfold DELETE_problem. rewrite (authenticateToken_next _ _ _ _ Hauth).
  unfold try_catch, Mongoose.findById, get_db, mbind, mret, Async_bind, Async_ret.
  rewrite HP, bool_decide_eq_true_2 by done. cbn [negb].
  rewrite Himage, Htruthy, Hrun. run.
  by rewrite <- !app_assoc.
Qed.

(** C9: updating a problem that already carries an image, by its owner and
    with a new file attached, calls destroy on the old reference first (the
    public id is [crowdsolve/] followed by the name of the file the old
    reference ends in) and only then uploads; a rejected destroy is only
    logged. If the upload is then rejected the answer is 500 and the database
    is untouched, so the stored problem still holds the old reference. *)
Theorem update_destroys_before_uploading amb req user w P image file :
  authenticated_as amb req user →
  problems (db w) !! req_params_id req = Some P →
  Problem.postedBy P = userId user →
  Problem.image P = Some image →
  Js.truthy image = true →
  req_file req = Some file →
  ∃ publicId,
    publicId_of image = Some publicId ∧
    file_name_of image publicId ∧
    let before_upload :=
      trace w
      ++ [CloudDestroy ("crowdsolve/" +:+ publicId)]
      ++ match uploader_destroy (trace w) ("crowdsolve/" +:+ publicId) with
         | Resolved _ => []
         | Rejected error =>
             [ConsoleError "Error deleting old image from Cloudinary:" error]
         end in
    (∃ rest, trace (serve Put_problem amb req w)
             = before_upload ++ [CloudUpload file] ++ rest)
    ∧ ∀ error, uploader_upload_stream before_upload file = Rejected error →
        PUT_problem amb req w
        = (Resolved {| res_status := 500;
                       res_body := ServerError "Server error" error |},
           mkWorld (db w) (next_id w) (before_upload ++ [CloudUpload file]))
        ∧ problems (db (serve Put_problem amb req w)) !! req_params_id req = Some P.
Proof.
  intros Hauth HP Howner Himage Htruthy Hfile.
  destruct (destroy_image_run "Error deleting old image from Cloudinary:" image w)
    as (publicId & Hid & Hrun).
  exists publicId. split; [done|]. split; [by apply publicId_of_names_file|]. cbn zeta.
  assert (∀ l, trace w ++ CloudDestroy ("crowdsolve/" +:+ publicId) :: l
               = trace w ++ [CloudDestroy ("crowdsolve/" +:+ publicId)] ++ l) as Happ by done.
  rewrite Happ in Hrun.
  unfold serve, app, PUT_problem. rewrite (authenticateToken_next _ _ _ _ Hauth).
  unfold try_catch, Mongoose.findById, get_db, mbind, mret, Async_bind, Async_ret.
  rewrite HP, bool_decide_eq_true_2 by done. cbn [negb].
  rewrite Hfile. cbn [Problem.image Problem.set_location Problem.set_description
                      Problem.set_title].
  rewrite Himage, Htruthy, Hrun. run. split.
  - destruct (uploader_upload_stream _ file); cbn;
      eexists; rewrite <- !app_assoc; reflexivity.
  - intros error ->. cbn. by rewrite <- !app_assoc.
Qed.

(** *** Upvotes *)

Lemma toggled_twice u l : NoDup l → toggled u (toggled u l) ≡ₚ l.
Proof.
  intros Hnd. unfold toggled at 2. case_decide as Hin.
  - unfold toggled. rewrite decide_False by (by intros [? _]%list_elem_of_filter).
    apply NoDup_Permutation; [|done|].
    + apply NoDup_app. split_and!; [by apply NoDup_filter| |apply NoDup_singleton].
      intros x [Hx _]%list_elem_of_filter ->%list_elem_of_singleton. done.
    + intros x. rewrite elem_of_app, list_elem_of_filter, list_elem_of_singleton.
      destruct (decide (x = u)) as [->|]; [by split; auto | tauto].
  - unfold toggled.
    rewrite decide_True by (apply elem_of_app; right; by apply list_elem_of_singleton).
    rewrite filter_app, filter_absent by done.
    rewrite filter_cons_False, filter_nil by (by intros ?).
    by rewrite app_nil_r.
Qed.

Lemma upvote_run amb req user w sol :
  consistent w →
  authenticated_as amb req user →
  solutions (db w) !! req_params_id req = Some sol →
  let upvotes' := toggled (userId user) (Solution.upvotes sol) in
  POST_solution_upvote amb req w
  = (Resolved {| res_status := 200;
                 res_body := Upvotes (length upvotes')
                               (bool_decide (userId user ∈ upvotes')) |},
     mkWorld
       (Mongoose.with_solutions (db w)
          (<[req_params_id req := Solution.set_upvotes sol upvotes']> (solutions (db w))))
       (next_id w)
       (trace w ++ [DbSave Solutions (req_params_id req)])).
Proof.
  intros Hw Hauth HS. cbn zeta.
  pose proof (upvotes_NoDup _ Hw _ _ HS) as Hnd.
  unfold POST_solution_upvote. rewrite (authenticateToken_next _ _ _ _ Hauth).
  run. rewrite HS. unfold toggled. case_decide as Hin.
  - rewrite (proj2 (indexOf_present _ _) Hin).
    rewrite splice1_indexOf by done. cbn [Solution.upvotes Solution.set_upvotes].
    rewrite bool_decide_eq_false_2 by (by intros [? _]%list_elem_of_filter).
    assert (Js.indexOf (Solution.upvotes sol) (userId user) ≠ (-1)%Z) as Hidx
      by (by intros E%indexOf_absent).
    by apply Z.eqb_neq in Hidx as ->.
  - apply indexOf_absent in Hin as Hidx. rewrite Hidx. cbn.
    rewrite bool_decide_eq_true_2; [done|].
    apply elem_of_app; right. by apply list_elem_of_singleton.
Qed.

(** C3: the upvote handler answers 404 and changes nothing when the solution
    is not stored; otherwise it removes the caller from the upvoters if
    present and appends the caller if absent, saves the solution, and answers
    with the new number of upvoters and with whether the caller is now among
    them. *)
Theorem upvote_toggles amb req user w :
  reachable w →
  authenticated_as amb req user →
  match solutions (db w) !! req_params_id req with
  | None =>
      POST_solution_upvote amb req w
      = (Resolved {| res_status := 404; res_body := Message "Solution not found" |}, w)
  | Some sol =>
      let upvotes' := toggled (userId user) (Solution.upvotes sol) in
      POST_solution_upvote amb req w
      = (Resolved {| res_status := 200;
                     res_body := Upvotes (length upvotes')
                                   (bool_decide (userId user ∈ upvotes')) |},
         mkWorld
           (Mongoose.with_solutions (db w)
              (<[req_params_id req := Solution.set_upvotes sol upvotes']>
                 (solutions (db w))))
           (next_id w)
           (trace w ++ [DbSave Solutions (req_params_id req)]))
  end.
Proof.
  intros Hw%reachable_consistent Hauth.
  destruct (solutions (db w) !! req_params_id req) as [sol|] eqn:HS.
  - by apply upvote_run.
  - unfold POST_solution_upvote. rewrite (authenticateToken_next _ _ _ _ Hauth).
    run. by rewrite HS.
Qed.

(** C4: two upvote requests in a row by the same user on the same solution
    leave the solution with the upvoters it had before, as a set and in
    number, and change nothing else in the database. *)
Theorem upvote_twice_restores amb1 req1 user1 amb2 req2 user2 w sol :
  reachable w →
  authenticated_as amb1 req1 user1 →
  authenticated_as amb2 req2 user2 →
  userId user1 = userId user2 →
  req_params_id req1 = req_params_id req2 →
  solutions (db w) !! req_params_id req1 = Some sol →
  let w2 := serve Post_solution_upvote amb2 req2 (serve Post_solution_upvote amb1 req1 w) in
  ∃ sol2,
    solutions (db w2) !! req_params_id req1 = Some sol2
    ∧ Solution.upvotes sol2 ≡ₚ Solution.upvotes sol
    ∧ length (Solution.upvotes sol2) = length (Solution.upvotes sol)
    ∧ sol2 = Solution.set_upvotes sol (Solution.upvotes sol2)
    ∧ db w2 = Mongoose.with_solutions (db w)
                (<[req_params_id req1 := sol2]> (solutions (db w))).
Proof.
  intros Hw%reachable_consistent Hauth1 Hauth2 Huser Hid HS. cbn zeta.
  pose proof (upvotes_NoDup _ Hw _ _ HS) as Hnd.
  pose proof (serve_consistent Post_solution_upvote amb1 req1 w Hw) as Hw1.
  revert Hw1. unfold serve, app.
  rewrite (upvote_run amb1 req1 user1 w sol Hw Hauth1 HS). cbn [snd]. intros Hw1.
  erewrite (upvote_run amb2 req2 user2); [|done|done|].
  2: { cbn. rewrite <- Hid. apply lookup_insert_eq. }
  cbn. rewrite <- Hid, <- Huser. eexists. split; [apply lookup_insert_eq|].
  cbn. split_and!.
  - by apply toggled_twice.
  - by rewrite toggled_twice.
  - by destruct sol.
  - by rewrite insert_insert_eq.
Qed.

(** *** Registration and login *)

(** C5: registration answers 400 exactly when a stored user has the same
    email or the same username, and then changes nothing. When no such user is
    stored and the three fields pass validation, the stored user holds
    bcrypt's digest of the password in place of the password, and the answer
    is 201 with a signed token and the summary [{id, username, email}]; a 201
    is never given in any other way. *)
Theorem register_conflict_or_created amb req w :
  let username := req_body req !! "username" in
  let email := req_body req !! "email" in
  let password := req_body req !! "password" in
  let taken :=
    ∃ i u, users (db w) !! i = Some u
           ∧ (email = Some (User.email u) ∨ username = Some (User.username u)) in
  let created u e p :=
    (Resolved
       {| res_status := 201;
          res_body :=
            Authenticated "User created successfully"
              (jwt_sign {| userId := next_id w; username := u |} "24h" (now amb))
              {| id := next_id w; summary_username := u; summary_email := e |} |},
     mkWorld
       (Mongoose.with_users (db w)
          (<[next_id w := User.mk u e (bcrypt_hash p 10 (entropy amb)) (now amb)]>
             (users (db w))))
       (S (next_id w))
       (trace w ++ [DbSave Users (next_id w)])) in
  let result := POST_auth_register amb req w in
  (taken ↔ ∃ resp, result.1 = Resolved resp ∧ res_status resp = 400)
  ∧ (taken →
     result = (Resolved {| res_status := 400; res_body := Message "User already exists" |}, w))
  ∧ (∀ u e p,
       ¬ taken → username = Some u → email = Some e → password = Some p →
       Js.truthy u = true → Js.truthy e = true →
       Js.truthy (bcrypt_hash p 10 (entropy amb)) = true →
       result = created u e p)
  ∧ (∀ resp, result.1 = Resolved resp → res_status resp = 201 →
       ∃ u e p, username = Some u ∧ email = Some e ∧ password = Some p
                ∧ result = created u e p).
Proof.
  cbn zeta.
  set (query := λ x : User.t,
         bool_decide (req_body req !! "email" = Some (User.email x))
         || bool_decide (req_body req !! "username" = Some (User.username x))).
  assert ((∃ i u, users (db w) !! i = Some u
                  ∧ (req_body req !! "email" = Some (User.email u)
                     ∨ req_body req !! "username" = Some (User.username u)))
          ↔ is_Some (List.find (λ kv, query kv.2) (map_to_list (users (db w)))))
    as Htaken.
  { split.
    - intros (i & u & Hu & Hsame). apply (find_map_to_list_is_Some _ query i u Hu).
      unfold query. apply orb_true_iff.
      destruct Hsame; [left | right]; by apply bool_decide_eq_true_2.
    - intros [[i u] Hfind]. apply find_map_to_list_Some in Hfind as [Hu Hq].
      exists i, u. split; [done|]. unfold query in Hq.
      apply orb_true_iff in Hq as [Hq|Hq]; apply bool_decide_eq_true_1 in Hq; auto. }
  unfold POST_auth_register. run. fold query.
  destruct (List.find _ _) as [found|] eqn:Hfind.
  - assert (is_Some (Some found)) as Htrue%Htaken by by eexists.
    split_and!; [split; eauto | done | by intros u e p [] | by intros resp [= <-]].
  - assert (¬ is_Some (@None (ObjectId * User.t))) as Hfalse by (by intros []).
    rewrite <- Htaken in Hfalse.
    split_and!.
    + split; [done | intros (resp & Hresp & Hstatus)]. exfalso.
      repeat (case_match; simplify_eq/=).
    + done.
    + intros u e p _ -> -> -> Hu He Hp. cbn. by rewrite Hu, He, Hp.
    + intros resp Hresp Hstatus.
      repeat (case_match; simplify_eq/=). eauto 10.
Qed.

Lemma login_finds_the_user w i u (email : option string) :
  consistent w →
  users (db w) !! i = Some u →
  email = Some (User.email u) →
  List.find (λ kv : ObjectId * User.t, bool_decide (email = Some (User.email kv.2)))
    (map_to_list (users (db w)))
  = Some (i, u).
Proof.
  intros Hw Hu Hemail.
  set (query := λ x : User.t, bool_decide (email = Some (User.email x))).
  destruct (find_map_to_list_is_Some (users (db w)) query i u Hu) as [[j v] Hfind];
    [by apply bool_decide_eq_true_2|].
  change (List.find (λ kv, query kv.2) (map_to_list (users (db w))) = Some (i, u)).
  rewrite Hfind. apply (find_map_to_list_Some (users (db w)) query) in Hfind as [Hv Hq].
  apply bool_decide_eq_true_1 in Hq. rewrite Hemail in Hq. injection Hq as Hq.
  pose proof (emails_unique _ Hw _ _ _ _ Hu Hv Hq) as <-. by simplify_eq.
Qed.

(** C6: a login with an email no stored user has, and a login with the
    email of a stored user and a password that bcrypt does not accept for
    that user, get the same answer, 400 with "Invalid credentials", and
    neither changes the world. *)
Theorem login_failures_indistinguishable amb1 req1 w1 amb2 req2 w2 i u p :
  (∀ j v, users (db w1) !! j = Some v → req_body req1 !! "email" ≠ Some (User.email v)) →
  reachable w2 →
  users (db w2) !! i = Some u →
  req_body req2 !! "email" = Some (User.email u) →
  req_body req2 !! "password" = Some p →
  bcrypt_compare p (User.password u) = false →
  (POST_auth_login amb1 req1 w1).1 = (POST_auth_login amb2 req2 w2).1
  ∧ POST_auth_login amb1 req1 w1
    = (Resolved {| res_status := 400; res_body := Message "Invalid credentials" |}, w1)
  ∧ POST_auth_login amb2 req2 w2
    = (Resolved {| res_status := 400; res_body := Message "Invalid credentials" |}, w2).
Proof.
  intros Hunknown Hw%reachable_consistent Hu Hemail Hpassword Hcompare.
  assert (POST_auth_login amb1 req1 w1
          = (Resolved {| res_status := 400; res_body := Message "Invalid credentials" |}, w1))
    as E1.
  { unfold POST_auth_login. run.
    destruct (List.find _ _) as [[j v]|] eqn:Hfind; [|done].
    destruct (find_map_to_list_Some (users (db w1))
                (λ x, bool_decide (req_body req1 !! "email" = Some (User.email x)))
                j v Hfind) as [Hv Hq].
    apply bool_decide_eq_true_1 in Hq. by apply Hunknown in Hv. }
  assert (POST_auth_login amb2 req2 w2
          = (Resolved {| res_status := 400; res_body := Message "Invalid credentials" |}, w2))
    as E2.
  { unfold POST_auth_login. run.
    rewrite (login_finds_the_user w2 i u _ Hw Hu Hemail).
    by rewrite Hpassword, Hcompare. }
  by rewrite E1, E2.
Qed.

(** *** Partial updates *)

Lemma or_truthy_wins provided old : truthy_wins provided old (Js.or provided old).
Proof.
  split.
  - intros v -> Hv. cbn. by destruct v.
  - by intros [->| ->].
Qed.

(** C7, as the handler has it: an update by the owner always gets an
    answer, which is 200 when no file is attached; and whenever the answer is
    200, each of title, description and location holds the value sent for it
    if that value is a non-empty string, and its old value if the field was
    left out or sent as the empty string. *)
Theorem update_overwrites_non_empty_fields amb req user w P :
  authenticated_as amb req user →
  problems (db w) !! req_params_id req = Some P →
  Problem.postedBy P = userId user →
  ∃ resp w',
    PUT_problem amb req w = (Resolved resp, w')
    ∧ (req_file req = None → res_status resp = 200)
    ∧ (res_status resp = 200 →
       ∃ P', problems (db w') !! req_params_id req = Some P'
         ∧ truthy_wins (req_body req !! "title") (Problem.title P) (Problem.title P')
         ∧ truthy_wins (req_body req !! "description")
             (Problem.description P) (Problem.description P')
         ∧ truthy_wins (req_body req !! "location")
             (Problem.location P) (Problem.location P')).
Proof.
  intros Hauth HP Howner.
  unfold PUT_problem. rewrite (authenticateToken_next _ _ _ _ Hauth).
  run. rewrite HP, bool_decide_eq_true_2 by done. cbn [negb].
  repeat (case_match; simplify_eq/=).
  all: eexists _, _; split; [reflexivity|]; cbn; split; [done|].
  all: try (by intros [=]).
  all: intros _; eexists; split; [apply lookup_insert_eq|]; cbn.
  all: split_and!; apply or_truthy_wins.
Qed.

(** *** Status, owner and creation time *)

(** C10: in every world the API can reach, every stored problem has status
    [open]; and whatever requests follow, a problem that is still stored has
    the owner, the creation time and the status it had. *)
Theorem problems_stay_open_and_owned w w' i P P' :
  reachable w →
  later w w' →
  problems (db w) !! i = Some P →
  problems (db w') !! i = Some P' →
  Problem.status P = open
  ∧ Problem.status P' = open
  ∧ Problem.postedBy P' = Problem.postedBy P
  ∧ Problem.createdAt P' = Problem.createdAt P.
Proof.
  intros Hw%reachable_consistent Hlater HP HP'.
  destruct (later_problem_kept w w' i P P' Hw Hlater HP HP') as (Ho & Hc & Hs).
  pose proof (problems_open _ Hw _ _ HP) as Hopen.
  split_and!; congruence.
Qed.

End Properties.

(** ** The theorems at work on the sample deployment *)

Lemma sample_alice req_id fields f :
  authenticated_as (jwt := Sample.jwt) Sample.clock
    (Sample.request "alice" req_id fields f) Sample.alice.
Proof. by exists "alice". Defined.

Lemma sample_bob req_id fields f :
  authenticated_as (jwt := Sample.jwt) Sample.clock
    (Sample.request "bob" req_id fields f) Sample.bob.
Proof. by exists "bob". Defined.

Lemma sample_registered_reachable :
  reachable (bcrypt := Sample.bcrypt) (jwt := Sample.jwt)
    (cloudinary := Sample.cloudinary) Sample.registered.
Proof. repeat apply reachable_serve. apply reachable_initial. Defined.

Lemma sample_reported_reachable :
  reachable (bcrypt := Sample.bcrypt) (jwt := Sample.jwt)
    (cloudinary := Sample.cloudinary) Sample.reported.
Proof. apply reachable_serve, sample_registered_reachable. Defined.

Lemma sample_proposed_reachable :
  reachable (bcrypt := Sample.bcrypt) (jwt := Sample.jwt)
    (cloudinary := Sample.cloudinary) Sample.proposed.
Proof. apply reachable_serve, sample_reported_reachable. Defined.

Lemma put_by_non_owner_forbidden_witness :
  PUT_problem (jwt := Sample.jwt) (cloudinary := Sample.cloudinary)
    Sample.clock Sample.rename_by_bob Sample.reported
  = (Resolved {| res_status := 403;
                 res_body := Message "Not authorized to edit this problem" |},
     Sample.reported)
  ∧ problems (db (Sample.run Put_problem Sample.clock Sample.rename_by_bob Sample.reported))
      !! 2 = Some Sample.pothole
  ∧ trace (Sample.run Put_problem Sample.clock Sample.rename_by_bob Sample.reported)
    = trace Sample.reported.
Proof.
  apply (put_by_non_owner_forbidden (bcrypt := Sample.bcrypt) Sample.clock
           Sample.rename_by_bob Sample.bob Sample.reported Sample.pothole).
  - apply sample_bob.
  - vm_compute. reflexivity.
  - vm_compute. discriminate.
Defined.

Lemma create_uploads_before_saving_witness :
  POST_problems (jwt := Sample.jwt) (cloudinary := Sample.cloudinary)
    Sample.clock Sample.report_with_empty_file Sample.registered
  = (Resolved {| res_status := 500;
                 res_body := ServerError "Server error" (CloudinaryError "Empty file") |},
     mkWorld (db Sample.registered) (next_id Sample.registered)
       (trace Sample.registered ++ [CloudUpload Sample.empty_file])).
Proof.
  apply (create_uploads_before_saving (bcrypt := Sample.bcrypt) Sample.clock
           Sample.report_with_empty_file Sample.alice Sample.registered Sample.empty_file).
  - apply sample_alice.
  - reflexivity.
  - reflexivity.
Defined.

Lemma upvote_toggles_witness :
  POST_solution_upvote (jwt := Sample.jwt) Sample.clock Sample.upvote_by_alice Sample.proposed
  = (Resolved {| res_status := 200; res_body := Upvotes 1 true |},
     mkWorld
       (Mongoose.with_solutions (db Sample.proposed)
          (<[3 := Solution.set_upvotes Sample.filling [0]]> (solutions (db Sample.proposed))))
       (next_id Sample.proposed)
       (trace Sample.proposed ++ [DbSave Solutions 3])).
Proof.
  pose proof (upvote_toggles Sample.clock Sample.upvote_by_alice Sample.alice
                Sample.proposed sample_proposed_reachable (sample_alice _ _ _)) as Hrun.
  change (solutions (db Sample.proposed) !! req_params_id Sample.upvote_by_alice)
    with (Some Sample.filling) in Hrun.
  exact Hrun.
Defined.

Lemma upvote_twice_restores_witness :
  ∃ sol2,
    solutions
      (db (Sample.run Post_solution_upvote Sample.clock Sample.upvote_by_alice
             (Sample.run Post_solution_upvote Sample.clock Sample.upvote_by_alice
                Sample.proposed)))
      !! 3 = Some sol2
    ∧ Solution.upvotes sol2 ≡ₚ []
    ∧ length (Solution.upvotes sol2) = 0
    ∧ sol2 = Solution.set_upvotes Sample.filling (Solution.upvotes sol2)
    ∧ db (Sample.run Post_solution_upvote Sample.clock Sample.upvote_by_alice
            (Sample.run Post_solution_upvote Sample.clock Sample.upvote_by_alice
               Sample.proposed))
      = Mongoose.with_solutions (db Sample.proposed)
          (<[3 := sol2]> (solutions (db Sample.proposed))).
Proof.
  apply (upvote_twice_restores Sample.clock Sample.upvote_by_alice Sample.alice
           Sample.clock Sample.upvote_by_alice Sample.alice Sample.proposed Sample.filling).
  - apply sample_proposed_reachable.
  - apply sample_alice.
  - apply sample_alice.
  - reflexivity.
  - reflexivity.
  - vm_compute. reflexivity.
Defined.

Lemma register_conflict_or_created_witness :
  POST_auth_register (bcrypt := Sample.bcrypt) (jwt := Sample.jwt)
    Sample.clock Sample.register_alice initial_world
  = (Resolved
       {| res_status := 201;
          res_body :=
            Authenticated "User created successfully" "alice"
              {| id := 0; summary_username := "alice";
                 summary_email := "alice@example.org" |} |},
     mkWorld
       (Mongoose.with_users empty_db
          (<[0 := User.mk "alice" "alice@example.org" "$2a$wonderland" 1000]> ∅))
       1 [DbSave Users 0]).
Proof.
  destruct (register_conflict_or_created (bcrypt := Sample.bcrypt) (jwt := Sample.jwt)
              Sample.clock Sample.register_alice initial_world)
    as (_ & _ & Hcreated & _).
  apply (Hcreated "alice" "alice@example.org" "wonderland").
  - intros (i & u & Hu & _). vm_compute in Hu. discriminate.
  - reflexivity.
  - reflexivity.
  - reflexivity.
  - reflexivity.
  - reflexivity.
  - reflexivity.
Defined.

Lemma login_failures_indistinguishable_witness :
  (POST_auth_login (bcrypt := Sample.bcrypt) (jwt := Sample.jwt)
     Sample.clock Sample.login_unknown Sample.registered).1
  = (POST_auth_login (bcrypt := Sample.bcrypt) (jwt := Sample.jwt)
       Sample.clock Sample.login_bob_wrong_password Sample.registered).1
  ∧ POST_auth_login (bcrypt := Sample.bcrypt) (jwt := Sample.jwt)
      Sample.clock Sample.login_unknown Sample.registered
    = (Resolved {| res_status := 400; res_body := Message "Invalid credentials" |},
       Sample.registered)
  ∧ POST_auth_login (bcrypt := Sample.bcrypt) (jwt := Sample.jwt)
      Sample.clock Sample.login_bob_wrong_password Sample.registered
    = (Resolved {| res_status := 400; res_body := Message "Invalid credentials" |},
       Sample.registered).
Proof.
  apply (login_failures_indistinguishable (cloudinary := Sample.cloudinary)
           Sample.clock Sample.login_unknown Sample.registered
           Sample.clock Sample.login_bob_wrong_password Sample.registered
           1 Sample.bob_account "wonderland").
  - intros j v Hv. change (users (db Sample.registered)) with
      (<[1 := Sample.bob_account]>
         (<[0 := User.mk "alice" "alice@example.org" "$2a$wonderland" 1000]>
            (∅ : gmap nat User.t))) in Hv.
    apply lookup_insert_Some in Hv as [[_ <-]|[_ Hv]]; [by vm_compute|].
    apply lookup_insert_Some in Hv as [[_ <-]|[_ Hv]]; [by vm_compute|].
    by rewrite lookup_empty in Hv.
  - apply sample_registered_reachable.
  - vm_compute. reflexivity.
  - reflexivity.
  - reflexivity.
  - reflexivity.
Defined.

Lemma update_overwrites_non_empty_fields_witness :
  ∃ resp w',
    PUT_problem (jwt := Sample.jwt) (cloudinary := Sample.cloudinary)
      Sample.clock Sample.rename_by_alice Sample.reported = (Resolved resp, w')
    ∧ (req_file Sample.rename_by_alice = None → res_status resp = 200)
    ∧ (res_status resp = 200 →
       ∃ P', problems (db w') !! 2 = Some P'
         ∧ truthy_wins (Some "Crater") "Pothole" (Problem.title P')
         ∧ truthy_wins None "Deep pothole" (Problem.description P')
         ∧ truthy_wins None "Main St" (Problem.location P')).
Proof.
  apply (update_overwrites_non_empty_fields Sample.clock
           Sample.rename_by_alice Sample.alice Sample.reported Sample.pothole).
  - apply sample_alice.
  - vm_compute. reflexivity.
  - reflexivity.
Defined.

(** C7 as the specification words it fails on the handler: the owner sends
    an empty title, the answer is 200, and the stored title is still the old
    one, because the empty string is falsy for [||]. *)
Lemma blank_title_is_not_stored :
  ¬ partial_update_as_specified (bcrypt := Sample.bcrypt) (jwt := Sample.jwt)
      (cloudinary := Sample.cloudinary).
Proof.
  intros Hspec.
  destruct (Hspec Sample.clock Sample.blank_title_by_alice Sample.alice
              Sample.reported Sample.pothole)
    as (P' & HP' & [Htitle _] & _).
  - apply sample_alice.
  - vm_compute. reflexivity.
  - reflexivity.
  - specialize (Htitle "" eq_refl).
    vm_compute in HP'. injection HP' as <-. discriminate.
Qed.

(** The same update, run: 200, and the title is unchanged. *)
Lemma blank_title_run :
  (PUT_problem (jwt := Sample.jwt) (cloudinary := Sample.cloudinary)
     Sample.clock Sample.blank_title_by_alice Sample.reported).1
  = Resolved {| res_status := 200;
                res_body := ProblemDoc {| doc_id := 2; doc := Sample.pothole;
                                          doc_postedBy := Some (0, "alice") |} |}
  ∧ problems (db (Sample.run Put_problem Sample.clock Sample.blank_title_by_alice
                    Sample.reported)) !! 2 = Some Sample.pothole.
Proof. split; vm_compute; reflexivity. Qed.

(** An update whose upload is rejected stores none of the fields sent. *)
Lemma aborted_update_stores_nothing :
  (PUT_problem (jwt := Sample.jwt) (cloudinary := Sample.cloudinary)
     Sample.clock Sample.new_photo_by_alice Sample.reported).1
  = Resolved {| res_status := 500;
                res_body := ServerError "Server error" (CloudinaryError "Empty file") |}
  ∧ req_body Sample.new_photo_by_alice !! "title" = Some "Crater"
  ∧ problems (db (Sample.run Put_problem Sample.clock Sample.new_photo_by_alice
                    Sample.reported)) !! 2 = Some Sample.pothole.
Proof. split_and!; vm_compute; reflexivity. Qed.

Lemma delete_destroys_image_once_witness :
  file_name_of Sample.secure_url "pothole"
  ∧ DELETE_problem (jwt := Sample.jwt) (cloudinary := Sample.cloudinary)
      Sample.clock Sample.delete_by_alice Sample.reported
    = (Resolved {| res_status := 200;
                   res_body := Message "Problem deleted successfully" |},
       mkWorld
         (Mongoose.with_problems (db Sample.reported)
            (delete 2 (problems (db Sample.reported))))
         (next_id Sample.reported)
         (trace Sample.reported
          ++ [CloudDestroy "crowdsolve/pothole"; DbDelete Problems 2])).
Proof.
  destruct (delete_destroys_image_once (jwt := Sample.jwt)
              (cloudinary := Sample.cloudinary) Sample.clock
              Sample.delete_by_alice Sample.alice Sample.reported Sample.pothole
              Sample.secure_url)
    as (publicId & Hid & Hname & Hrun).
  - apply sample_alice.
  - vm_compute. reflexivity.
  - reflexivity.
  - reflexivity.
  - reflexivity.
  - vm_compute in Hid. injection Hid as <-. split; [exact Hname | exact Hrun].
Defined.

(** The public id read off the sample reference. *)
Lemma sample_publicId : publicId_of Sample.secure_url = Some "pothole".
Proof. vm_compute. reflexivity. Qed.

Lemma update_destroys_before_uploading_witness :
  file_name_of Sample.secure_url "pothole"
  ∧ PUT_problem (jwt := Sample.jwt) (cloudinary := Sample.cloudinary)
      Sample.clock Sample.new_photo_by_alice Sample.reported
    = (Resolved {| res_status := 500;
                   res_body := ServerError "Server error" (CloudinaryError "Empty file") |},
       mkWorld (db Sample.reported) (next_id Sample.reported)
         (trace Sample.reported
          ++ [CloudDestroy "crowdsolve/pothole"; CloudUpload Sample.empty_file]))
  ∧ problems (db (Sample.run Put_problem Sample.clock Sample.new_photo_by_alice
                    Sample.reported)) !! 2 = Some Sample.pothole.
Proof.
  destruct (update_destroys_before_uploading (bcrypt := Sample.bcrypt)
              (jwt := Sample.jwt) (cloudinary := Sample.cloudinary) Sample.clock
              Sample.new_photo_by_alice Sample.alice Sample.reported Sample.pothole
              Sample.secure_url Sample.empty_file)
    as (publicId & Hid & Hname & _ & Hrejected).
  - apply sample_alice.
  - vm_compute. reflexivity.
  - reflexivity.
  - reflexivity.
  - reflexivity.
  - reflexivity.
  - vm_compute in Hid. injection Hid as <-. split; [exact Hname|].
    apply (Hrejected (CloudinaryError "Empty file")). reflexivity.
Defined.

Lemma problems_stay_open_and_owned_witness :
  Problem.status Sample.pothole = open
  ∧ Problem.status (Problem.set_title Sample.pothole "Crater") = open
  ∧ Problem.postedBy (Problem.set_title Sample.pothole "Crater")
    = Problem.postedBy Sample.pothole
  ∧ Problem.createdAt (Problem.set_title Sample.pothole "Crater")
    = Problem.createdAt Sample.pothole.
Proof.
  apply (problems_stay_open_and_owned (bcrypt := Sample.bcrypt) (jwt := Sample.jwt)
           (cloudinary := Sample.cloudinary)
           Sample.reported
           (Sample.run Put_problem Sample.clock Sample.rename_by_alice Sample.reported) 2).
  - apply sample_reported_reachable.
  - apply later_serve, later_refl.
  - vm_compute. reflexivity.
  - vm_compute. reflexivity.
Defined.

(** ** The handlers run on small inputs *)

Example split_path : Js.split "/" "a/b.c/d" = ["a"; "b.c"; "d"].
Proof. reflexivity. Qed.

Example split_trailing_separator : Js.split " " "Bearer " = ["Bearer"; ""].
Proof. reflexivity. Qed.

Example split_empty : Js.split "." "" = [""].
Proof. reflexivity. Qed.

Example bearer_without_token :
  bearer_token {| req_headers := {[ "authorization" := "Bearer" ]}; req_params_id := 0;
                  req_body := ∅; req_file := None |} = None.
Proof. vm_compute. reflexivity. Qed.

Example indexOf_examples :
  Js.indexOf [4; 7; 9] 7 = 1%Z ∧ Js.indexOf [4; 7; 9] 5 = (-1)%Z
  ∧ Js.splice1 1 [4; 7; 9] = [4; 9] ∧ Js.push [4; 9] 7 = [4; 9; 7].
Proof. by vm_compute. Qed.

(** Registering the same email under another username is refused. *)
Example register_same_email_refused :
  (POST_auth_register (bcrypt := Sample.bcrypt) (jwt := Sample.jwt) Sample.clock
     (Sample.anonymous [("username", "alicia"); ("email", "alice@example.org");
                        ("password", "rabbit")])
     Sample.registered).1
  = Resolved {| res_status := 400; res_body := Message "User already exists" |}.
Proof. vm_compute. reflexivity. Qed.

(** A problem reported by Alice is open and shows her name. *)
Example reported_problem_is_open :
  (POST_problems (jwt := Sample.jwt) (cloudinary := Sample.cloudinary) Sample.clock
     Sample.report_pothole Sample.registered).1
  = Resolved {| res_status := 201;
                res_body := ProblemDoc {| doc_id := 2; doc := Sample.pothole;
                                          doc_postedBy := Some (0, "alice") |} |}.
Proof. vm_compute. reflexivity. Qed.

(** Upvoting a fresh solution, then upvoting it again. *)
Example upvote_then_withdraw :
  (POST_solution_upvote (jwt := Sample.jwt) Sample.clock Sample.upvote_by_alice
     Sample.proposed).1
  = Resolved {| res_status := 200; res_body := Upvotes 1 true |}
  ∧ (POST_solution_upvote (jwt := Sample.jwt) Sample.clock Sample.upvote_by_alice
       (Sample.run Post_solution_upvote Sample.clock Sample.upvote_by_alice
          Sample.proposed)).1
    = Resolved {| res_status := 200; res_body := Upvotes 0 false |}.
Proof. split; vm_compute; reflexivity. Qed.

(** ** More about the middleware and the routes *)

Section Routes.
Context {bcrypt : Bcrypt} {jwt : Jwt} {cloudinary : Cloudinary}.

Ltac run :=
  unfold destroy_image, server_error;
  unfold try_catch, res_json, Mongoose.findById, Mongoose.findOne,
    Mongoose.find_sorted, Mongoose.populate_all, Mongoose.populate,
    Mongoose.create_User, Mongoose.create_Problem, Mongoose.create_Solution,
    Mongoose.create_Comment, Mongoose.write_Problem, Mongoose.write_Solution,
    Mongoose.write_User, Mongoose.write_Comment, Mongoose.findByIdAndDelete_Problem,
    hash, compare, uploadToCloudinary, destroy, await, history, emit, set_db,
    get_db, throw, new_ObjectId, mbind, mret, Async_bind, Async_ret;
  cbn [fst snd db trace next_id].

Ltac handlers :=
  unfold GET_health, POST_auth_register, POST_auth_login, GET_problems,
    POST_problems, GET_problem, PUT_problem, DELETE_problem, GET_problem_solutions,
    POST_problem_solutions, POST_solution_upvote, GET_solution_comments,
    POST_solution_comments, authenticateToken.

Lemma world_eta w : mkWorld (db w) (next_id w) (trace w) = w.
Proof. by destruct w. Qed.

(** X1: on every route behind [authenticateToken], a request that does not
    carry an acceptable token is answered by the middleware alone and the
    handler never runs: 401 when no token can be read off the header, 403
    when [jwt.verify] refuses the token; the world is left as it was. *)
Theorem unauthenticated_request_stops_at_middleware r amb req w :
  protected r = true →
  (∀ user, ¬ authenticated_as amb req user) →
  app r amb req w
  = (Resolved
       (if Js.truthy_opt (bearer_token req)
        then {| res_status := 403; res_body := Message "Invalid token" |}
        else {| res_status := 401; res_body := Message "Access token required" |}),
     w).
Proof.
  intros Hr Hno.
  assert (∀ next, authenticateToken amb req next w
    = (Resolved
         (if Js.truthy_opt (bearer_token req)
          then {| res_status := 403; res_body := Message "Invalid token" |}
          else {| res_status := 401; res_body := Message "Access token required" |}),
       w)) as Hgate.
  { intros next. unfold authenticateToken.
    destruct (bearer_token req) as [token|] eqn:Hb; cbn; [|done].
    destruct (Js.truthy token) eqn:Ht; [|done].
    destruct (jwt_verify token (now amb)) as [user|] eqn:Hv; [|done].
    destruct (Hno user). by exists token. }
  destruct r; try discriminate Hr; apply Hgate.
Qed.

(** X2: the handlers that only read (health, login and the four GET
    routes) leave the world exactly as it was: no document, no id, no effect. *)
Theorem read_routes_change_nothing r amb req w :
  read_only r = true → serve r amb req w = w.
Proof.
  intros Hr. unfold serve, app.
  destruct r; try discriminate Hr; handlers; run.
  all: repeat (case_match; simplify_eq/=); done.
Qed.

(** X3: every request is answered: whatever a handler meets (a rejected
    upload, a failed validation, a password that is no string), nothing is
    thrown past it, and the status is one of 200, 201, 400, 401, 403, 404, 500. *)
Theorem every_request_is_answered r amb req w :
  ∃ resp w', app r amb req w = (Resolved resp, w') ∧ res_status resp ∈ statuses.
Proof.
  unfold app. destruct r; handlers; run.
  all: repeat (case_match; simplify_eq/=).
  all: eexists _, _; (split; [reflexivity|]); cbn; unfold statuses.
  all: repeat first [apply list_elem_of_here | apply list_elem_of_further].
Qed.

(** *** Reading the token and the public id *)

(** X4: the middleware reads the token as the second word of the
    Authorization header, whatever the first word is: the scheme is not
    compared with "Bearer". *)
Theorem bearer_token_is_second_word scheme token req :
  includes " " scheme = false →
  includes " " token = false →
  req_headers req !! "authorization" = Some (scheme +:+ " " +:+ token) →
  bearer_token req = Some token.
Proof.
  intros Hscheme Htoken Hheader. unfold bearer_token. rewrite Hheader.
  cbn [Js.truthy_opt].
  assert (Js.truthy (scheme +:+ " " +:+ token) = true) as ->
    by (destruct scheme; reflexivity).
  cbn [mbind option_bind].
  change (scheme +:+ " " +:+ token) with (scheme +:+ String " " token).
  rewrite split_around_separator, !split_without_separator by done.
  done.
Qed.

(** X5: the public id handed to Cloudinary is the name of the file in the
    stored reference: the last path segment up to its first dot. For a
    reference [dir/name.ext] it is [name]; a last segment without a dot is
    taken whole. *)
Theorem publicId_of_reference dir name ext :
  includes "/" name = false →
  includes "." name = false →
  includes "/" ext = false →
  publicId_of (dir +:+ "/" +:+ name +:+ "." +:+ ext) = Some name
  ∧ publicId_of (dir +:+ "/" +:+ name) = Some name.
Proof.
  intros Hslash Hdot Hext. unfold publicId_of, Js.pop. split.
  - change (dir +:+ "/" +:+ name +:+ "." +:+ ext)
      with (dir +:+ String "/" (name +:+ "." +:+ ext)).
    rewrite split_around_separator.
    rewrite (split_without_separator "/" (name +:+ "." +:+ ext)).
    2: { rewrite !includes_app, Hslash, Hext. done. }
    rewrite last_snoc. cbn [mbind option_bind].
    change (name +:+ "." +:+ ext) with (name +:+ String "." ext).
    rewrite split_around_separator, (split_without_separator "." name) by done.
    done.
  - change (dir +:+ "/" +:+ name) with (dir +:+ String "/" name).
    rewrite split_around_separator, (split_without_separator "/" name) by done.
    rewrite last_snoc. cbn [mbind option_bind].
    by rewrite (split_without_separator "." name).
Qed.

(** *** Problems *)

(** X6: reading, updating or deleting a problem that is not stored
    answers 404 and changes nothing; for update and delete this is so for
    every authenticated caller, whatever the body and the file. *)
Theorem missing_problem_not_found r amb req user w :
  r = Get_problem ∨ (r = Put_problem ∨ r = Delete_problem) ∧ authenticated_as amb req user →
  problems (db w) !! req_params_id req = None →
  app r amb req w
  = (Resolved {| res_status := 404; res_body := Message "Problem not found" |}, w).
Proof.
  intros [->|[[-> | ->] Hauth]] HP; unfold app.
  - unfold GET_problem. run. by rewrite HP.
  - unfold PUT_problem. rewrite (authenticateToken_next _ _ _ _ Hauth). run. by rewrite HP.
  - unfold DELETE_problem. rewrite (authenticateToken_next _ _ _ _ Hauth). run.
    by rewrite HP.
Qed.

(** X7: a DELETE on a stored problem by an authenticated user who is not
    its owner answers 403 and changes nothing: the problem stays stored and
    Cloudinary is not called. *)
Theorem delete_by_non_owner_forbidden amb req user w P :
  authenticated_as amb req user →
  problems (db w) !! req_params_id req = Some P →
  Problem.postedBy P ≠ userId user →
  DELETE_problem amb req w
  = (Resolved {| res_status := 403;
                 res_body := Message "Not authorized to delete this problem" |}, w).
Proof.
  intros Hauth HP Howner.
  unfold DELETE_problem. rewrite (authenticateToken_next _ _ _ _ Hauth).
  run. rewrite HP. by rewrite bool_decide_eq_false_2.
Qed.

(** X8: a delete by the owner removes that problem and nothing else:
    users, other problems, and the solutions and comments under it stay
    stored (nothing cascades); a problem without an image is deleted without
    any call to Cloudinary; and reading the problem afterwards answers 404. *)
Theorem delete_removes_only_the_problem amb req user w P :
  authenticated_as amb req user →
  problems (db w) !! req_params_id req = Some P →
  Problem.postedBy P = userId user →
  ∃ w',
    DELETE_problem amb req w
    = (Resolved {| res_status := 200;
                   res_body := Message "Problem deleted successfully" |}, w')
    ∧ db w' = Mongoose.with_problems (db w)
                (delete (req_params_id req) (problems (db w)))
    ∧ (Js.truthy_opt (Problem.image P) = false →
       trace w' = trace w ++ [DbDelete Problems (req_params_id req)])
    ∧ ∀ amb' req',
        req_params_id req' = req_params_id req →
        GET_problem amb' req' w'
        = (Resolved {| res_status := 404; res_body := Message "Problem not found" |}, w').
Proof.
  intros Hauth HP Howner.
  unfold DELETE_problem. rewrite (authenticateToken_next _ _ _ _ Hauth).
  unfold try_catch, Mongoose.findById, get_db, mbind, mret, Async_bind, Async_ret.
  rewrite HP, bool_decide_eq_true_2 by done. cbn [negb].
  assert (∀ w0, db w0 = Mongoose.with_problems (db w)
                          (delete (req_params_id req) (problems (db w))) →
          ∀ amb' req', req_params_id req' = req_params_id req →
          GET_problem amb' req' w0
          = (Resolved {| res_status := 404; res_body := Message "Problem not found" |}, w0))
    as Hget.
  { intros w0 Hdb amb' req' Hid. unfold GET_problem. run.
    rewrite Hdb, Hid. cbn. by rewrite lookup_delete_eq. }
  destruct (Problem.image P) as [image|] eqn:Himage; [destruct (Js.truthy image) eqn:Ht|].
  - destruct (destroy_image_run "Error deleting image from Cloudinary:" image w)
      as (publicId & _ & ->).
    run. eexists. split; [reflexivity|]. cbn. split_and!; [done | congruence | by apply Hget].
  - run. eexists. split; [reflexivity|]. cbn. split_and!; [done | done | by apply Hget].
  - run. eexists. split; [reflexivity|]. cbn. split_and!; [done | done | by apply Hget].
Qed.

(** X9: a problem that was created can be read back: when the create
    handler answers 201 with a document, a GET for that document's id on the
    resulting world answers 200 with the same document, owner included. *)
Theorem created_problem_can_be_read amb req w d w' amb' req' :
  POST_problems amb req w
  = (Resolved {| res_status := 201; res_body := ProblemDoc d |}, w') →
  req_params_id req' = doc_id d →
  GET_problem amb' req' w'
  = (Resolved {| res_status := 200; res_body := ProblemDoc d |}, w').
Proof.
  unfold POST_problems, authenticateToken. run. intros Hpost Hid.
  unfold GET_problem. run. rewrite Hid.
  repeat (case_match; simplify_eq/=).
  all: try (rewrite lookup_insert_eq in *; by simplify_eq).
Qed.


(** X11: the upload comes before validation. When a file is attached and
    accepted but a required field is missing or empty, the answer is 500 with
    the validation error naming the failing fields and no problem is stored,
    yet the file has been uploaded to Cloudinary: the asset is left without a
    record. *)
Theorem invalid_problem_leaves_uploaded_asset amb req user w file url :
  authenticated_as amb req user →
  req_file req = Some file →
  uploader_upload_stream (trace w) file = Resolved url →
  Js.truthy_opt (req_body req !! "title")
  && Js.truthy_opt (req_body req !! "description")
  && Js.truthy_opt (req_body req !! "location") = false →
  POST_problems amb req w
  = (Resolved
       {| res_status := 500;
          res_body :=
            ServerError "Server error"
              (ValidationError "Problem"
                 (Mongoose.failing_paths
                    [("title", req_body req !! "title");
                     ("description", req_body req !! "description");
                     ("location", req_body req !! "location")])) |},
     mkWorld (db w) (S (next_id w)) (trace w ++ [CloudUpload file])).
Proof.
  intros Hauth Hfile Hupload Hinvalid.
  unfold POST_problems. rewrite (authenticateToken_next _ _ _ _ Hauth). run.
  rewrite Hfile, Hupload. cbn.
  destruct (req_body req !! "title") as [t|];
    destruct (req_body req !! "description") as [d|];
    destruct (req_body req !! "location") as [l|]; cbn in *; try done.
  by rewrite Hinvalid.
Qed.

(** X12: an update by the owner with a file attached destroys the old
    image first when there is one (the public id is [crowdsolve/] followed by
    the name of the file the old reference ends in) and then uploads. When
    Cloudinary accepts the upload, made after those effects, the answer is 200
    with the updated problem, whose image is the new reference and whose
    owner, creation time and status are the old ones, and the only further
    effect is the save. When the problem had no image the upload is the first
    effect. *)
Theorem update_replaces_image amb req user w P file :
  authenticated_as amb req user →
  problems (db w) !! req_params_id req = Some P →
  Problem.postedBy P = userId user →
  req_file req = Some file →
  ∃ publicId,
    (∀ image, Problem.image P = Some image → Js.truthy image = true →
              file_name_of image publicId)
    ∧ let before_upload :=
        if Js.truthy_opt (Problem.image P) then
          trace w
          ++ [CloudDestroy ("crowdsolve/" +:+ publicId)]
          ++ match uploader_destroy (trace w) ("crowdsolve/" +:+ publicId) with
             | Resolved _ => []
             | Rejected error =>
                 [ConsoleError "Error deleting old image from Cloudinary:" error]
             end
        else trace w in
      ∀ url, uploader_upload_stream before_upload file = Resolved url →
        ∃ P',
          let db' :=
            Mongoose.with_problems (db w)
              (<[req_params_id req := P']> (problems (db w))) in
          PUT_problem amb req w
          = (Resolved
               {| res_status := 200;
                  res_body :=
                    ProblemDoc
                      (Mongoose.populated db' Problem.postedBy (req_params_id req, P')) |},
             mkWorld db' (next_id w)
               (before_upload
                ++ [CloudUpload file; DbSave Problems (req_params_id req)]))
          ∧ Problem.image P' = Some url
          ∧ Problem.postedBy P' = Problem.postedBy P
          ∧ Problem.createdAt P' = Problem.createdAt P
          ∧ Problem.status P' = Problem.status P.
Proof.
  intros Hauth HP Howner Hfile.
  unfold PUT_problem. rewrite (authenticateToken_next _ _ _ _ Hauth).
  unfold try_catch, Mongoose.findById, get_db, mbind, mret, Async_bind, Async_ret.
  rewrite HP, bool_decide_eq_true_2 by done. cbn [negb].
  rewrite Hfile. cbn [Problem.image Problem.set_location Problem.set_description
                      Problem.set_title].
  destruct (Problem.image P) as [image|] eqn:Himage; [destruct (Js.truthy image) eqn:Ht|].
  - destruct (destroy_image_run "Error deleting old image from Cloudinary:" image w)
      as (publicId & Hid & ->).
    exists publicId. split.
    { intros ? [= <-] _. by apply publicId_of_names_file. }
    cbn [Js.truthy_opt]. rewrite Ht. cbn zeta. intros url Hurl.
    assert (∀ l, trace w ++ [CloudDestroy ("crowdsolve/" +:+ publicId)] ++ l
                 = trace w ++ CloudDestroy ("crowdsolve/" +:+ publicId) :: l) as Happ
      by done.
    rewrite Happ in Hurl |- *. run. rewrite Hurl. cbn. eexists.
    split; [rewrite <- !app_assoc; reflexivity | done].
  - exists "". split; [intros ? [= <-]; congruence|].
    cbn [Js.truthy_opt]. rewrite Ht. cbn zeta. intros url Hurl.
    run. rewrite Hurl. cbn. eexists.
    split; [rewrite <- !app_assoc; reflexivity | done].
  - exists "". split; [done|]. cbn zeta. cbn [Js.truthy_opt]. intros url Hurl.
    run. rewrite Hurl. cbn. eexists.
    split; [rewrite <- !app_assoc; reflexivity | done].
Qed.

(** *** Listings *)

#[local] Instance newest_first_total {D} (createdAt : D → nat) :
  Total (Mongoose.newest_first createdAt).
Proof. intros x y. unfold Mongoose.newest_first. lia. Qed.

#[local] Instance newest_first_transitive {D} (createdAt : D → nat) :
  Transitive (Mongoose.newest_first createdAt).
Proof. intros x y z. unfold Mongoose.newest_first. lia. Qed.

Lemma filter_keys_sublist {D} (f : ObjectId * D → bool) l :
  (List.filter f l).*1 `sublist_of` l.*1.
Proof.
  induction l as [|kv l IH]; cbn; [done|].
  destruct (f kv); cbn; [by apply sublist_skip | by apply sublist_cons].
Qed.

Lemma find_sorted_lists {D} (c : Db → gmap ObjectId D) query createdAt w :
  ∃ found,
    Mongoose.find_sorted c query createdAt w = (Resolved found, w)
    ∧ lists (c (db w)) query createdAt found.
Proof.
  eexists. split; [reflexivity|]. split_and!.
  - intros i x. rewrite merge_sort_Permutation.
    rewrite list_elem_of_In, filter_In, <- list_elem_of_In, elem_of_map_to_list.
    done.
  - apply StronglySorted_merge_sort; apply _.
  - rewrite merge_sort_Permutation.
    apply (sublist_NoDup _ (map_to_list (c (db w))).*1);
      [apply NoDup_fst_map_to_list | apply filter_keys_sublist].
Qed.

(** X13: the three listing routes answer 200 with every stored document
    that belongs to the listing, each exactly once (all problems; the
    solutions whose problemId, the comments whose solutionId is the route
    parameter), newest first, each with its owner populated; they need no
    token and change nothing. *)
Theorem listings_are_complete_and_newest_first amb req w :
  (∃ found,
     lists (problems (db w)) (λ _, true) Problem.createdAt found
     ∧ GET_problems amb req w
       = (Resolved {| res_status := 200;
                      res_body :=
                        ProblemList (Mongoose.populated (db w) Problem.postedBy <$> found) |},
          w))
  ∧ (∃ found,
       lists (solutions (db w))
         (λ s, bool_decide (Solution.problemId s = req_params_id req))
         Solution.createdAt found
       ∧ GET_problem_solutions amb req w
         = (Resolved {| res_status := 200;
                        res_body :=
                          SolutionList
                            (Mongoose.populated (db w) Solution.postedBy <$> found) |},
            w))
  ∧ (∃ found,
       lists (comments (db w))
         (λ c, bool_decide (Comment.solutionId c = req_params_id req))
         Comment.createdAt found
       ∧ GET_solution_comments amb req w
         = (Resolved {| res_status := 200;
                        res_body :=
                          CommentList
                            (Mongoose.populated (db w) Comment.postedBy <$> found) |},
            w)).
Proof.
  split_and!.
  - destruct (find_sorted_lists problems (λ _, true) Problem.createdAt w)
      as (found & Hrun & Hlists).
    exists found. split; [done|].
    unfold GET_problems, try_catch, mbind, Async_bind. rewrite Hrun. done.
  - destruct (find_sorted_lists solutions
                (λ s, bool_decide (Solution.problemId s = req_params_id req))
                Solution.createdAt w) as (found & Hrun & Hlists).
    exists found. split; [done|].
    unfold GET_problem_solutions, try_catch, mbind, Async_bind. rewrite Hrun. done.
  - destruct (find_sorted_lists comments
                (λ c, bool_decide (Comment.solutionId c = req_params_id req))
                Comment.createdAt w) as (found & Hrun & Hlists).
    exists found. split; [done|].
    unfold GET_solution_comments, try_catch, mbind, Async_bind. rewrite Hrun. done.
Qed.

(** *** Solutions and comments *)

(** X14: posting a solution needs only a token and a non-empty
    description, and posting a comment only a token and a non-empty text:
    the answer is 201 exactly then, and otherwise 500 with nothing stored.
    On 201 the new document is stored under a new id, with the text sent, the
    route parameter as parent and the caller as owner (a solution with no
    upvotes), and nothing else in the database changes. The problem or
    solution named in the route is not looked up, so this is so whether or
    not the parent is stored. *)
Theorem child_documents_need_only_their_text amb req user w :
  authenticated_as amb req user →
  (∃ resp w',
     POST_problem_solutions amb req w = (Resolved resp, w')
     ∧ (res_status resp = 201 ↔ Js.truthy_opt (req_body req !! "description") = true)
     ∧ (res_status resp ≠ 201 → res_status resp = 500 ∧ db w' = db w)
     ∧ (res_status resp = 201 →
        ∃ description,
          req_body req !! "description" = Some description
          ∧ db w'
            = Mongoose.with_solutions (db w)
                (<[next_id w := Solution.mk description (req_params_id req)
                                  (userId user) [] (now amb)]> (solutions (db w)))))
  ∧ (∃ resp w',
       POST_solution_comments amb req w = (Resolved resp, w')
       ∧ (res_status resp = 201 ↔ Js.truthy_opt (req_body req !! "text") = true)
       ∧ (res_status resp ≠ 201 → res_status resp = 500 ∧ db w' = db w)
       ∧ (res_status resp = 201 →
          ∃ text,
            req_body req !! "text" = Some text
            ∧ db w'
              = Mongoose.with_comments (db w)
                  (<[next_id w := Comment.mk text (req_params_id req)
                                    (userId user) (now amb)]> (comments (db w))))).
Proof.
  intros Hauth. split.
  - unfold POST_problem_solutions. rewrite (authenticateToken_next _ _ _ _ Hauth). run.
    repeat (case_match; simplify_eq/=).
    all: eexists _, _; (split; [reflexivity|]); cbn.
    all: split_and!; [split; done | done | try done].
    intros _. by eexists.
  - unfold POST_solution_comments. rewrite (authenticateToken_next _ _ _ _ Hauth). run.
    repeat (case_match; simplify_eq/=).
    all: eexists _, _; (split; [reflexivity|]); cbn.
    all: split_and!; [split; done | done | try done].
    intros _. by eexists.
Qed.

(** X15: a solution that was posted is listed: when the handler answers
    201 with a document, that document has no upvotes and the route's problem
    as parent, and the listing of that problem's solutions on the resulting
    world contains it. *)
Theorem posted_solution_is_listed amb req w d w' amb' req' :
  POST_problem_solutions amb req w
  = (Resolved {| res_status := 201; res_body := SolutionDoc d |}, w') →
  req_params_id req' = req_params_id req →
  Solution.upvotes (doc d) = []
  ∧ Solution.problemId (doc d) = req_params_id req
  ∧ ∃ ds, GET_problem_solutions amb' req' w'
          = (Resolved {| res_status := 200; res_body := SolutionList ds |}, w')
          ∧ d ∈ ds.
Proof.
  intros Hpost Hid.
  destruct (find_sorted_lists solutions
              (λ s, bool_decide (Solution.problemId s = req_params_id req'))
              Solution.createdAt w') as (found & Hrun & Hfound & _).
  unfold GET_problem_solutions, try_catch, mbind, Async_bind. rewrite Hrun.
  clear Hrun. revert Hpost Hfound.
  unfold POST_problem_solutions, authenticateToken. run. intros Hpost Hfound.
  repeat (case_match; simplify_eq/=).
  split_and!; [done | done |]. eexists. split; [reflexivity|].
  apply list_elem_of_fmap. eexists (_, _). split; [reflexivity|].
  apply Hfound. cbn. rewrite Hid, lookup_insert_eq, bool_decide_eq_true_2; done.
Qed.

(** X16: a comment that was posted is listed: when the handler answers
    201 with a document, the listing of the comments of the route's solution
    on the resulting world contains it. *)
Theorem posted_comment_is_listed amb req w d w' amb' req' :
  POST_solution_comments amb req w
  = (Resolved {| res_status := 201; res_body := CommentDoc d |}, w') →
  req_params_id req' = req_params_id req →
  Comment.solutionId (doc d) = req_params_id req
  ∧ ∃ ds, GET_solution_comments amb' req' w'
          = (Resolved {| res_status := 200; res_body := CommentList ds |}, w')
          ∧ d ∈ ds.
Proof.
  intros Hpost Hid.
  destruct (find_sorted_lists comments
              (λ c, bool_decide (Comment.solutionId c = req_params_id req'))
              Comment.createdAt w') as (found & Hrun & Hfound & _).
  unfold GET_solution_comments, try_catch, mbind, Async_bind. rewrite Hrun.
  clear Hrun. revert Hpost Hfound.
  unfold POST_solution_comments, authenticateToken. run. intros Hpost Hfound.
  repeat (case_match; simplify_eq/=).
  split; [done|]. eexists. split; [reflexivity|].
  apply list_elem_of_fmap. eexists (_, _). split; [reflexivity|].
  apply Hfound. cbn. rewrite Hid, lookup_insert_eq, bool_decide_eq_true_2; done.
Qed.

(** *** Accounts *)

Lemma login_run amb req w i u :
  consistent w →
  users (db w) !! i = Some u →
  req_body req !! "email" = Some (User.email u) →
  POST_auth_login amb req w
  = (Resolved
       match req_body req !! "password" with
       | None => {| res_status := 500; res_body := ServerError "Server error" BcryptError |}
       | Some p =>
           if bcrypt_compare p (User.password u) then
             {| res_status := 200;
                res_body :=
                  Authenticated "Login successful"
                    (jwt_sign {| userId := i; username := User.username u |} "24h" (now amb))
                    {| id := i; summary_username := User.username u;
                       summary_email := User.email u |} |}
           else {| res_status := 400; res_body := Message "Invalid credentials" |}
       end,
     w).
Proof.
  intros Hw Hu Hemail. unfold POST_auth_login. run.
  rewrite (login_finds_the_user w i u _ Hw Hu Hemail).
  destruct (req_body req !! "password") as [p|]; cbn; [|done].
  by destruct (bcrypt_compare p (User.password u)).
Qed.

(** X17: a login with the email of a stored user and a password that
    bcrypt accepts for that user's stored digest answers 200 with a token
    signed for that user and the user's summary, and changes nothing. *)
Theorem login_succeeds amb req w i u p :
  reachable w →
  users (db w) !! i = Some u →
  req_body req !! "email" = Some (User.email u) →
  req_body req !! "password" = Some p →
  bcrypt_compare p (User.password u) = true →
  POST_auth_login amb req w
  = (Resolved
       {| res_status := 200;
          res_body :=
            Authenticated "Login successful"
              (jwt_sign {| userId := i; username := User.username u |} "24h" (now amb))
              {| id := i; summary_username := User.username u;
                 summary_email := User.email u |} |},
     w).
Proof.
  intros Hw%reachable_consistent Hu Hemail Hpassword Hcompare.
  rewrite (login_run amb req w i u Hw Hu Hemail). by rewrite Hpassword, Hcompare.
Qed.

(** X18: registration and login fit together. Provided bcrypt accepts a
    password against its own digest, a user who has just been registered
    (201) can log in with the same email and password, and the login answers
    200 with the same user summary as the registration did. *)
Theorem register_then_login amb req w resp w' amb' req' :
  (∀ p rounds salt, bcrypt_compare p (bcrypt_hash p rounds salt) = true) →
  reachable w →
  POST_auth_register amb req w = (Resolved resp, w') →
  res_status resp = 201 →
  req_body req' !! "email" = req_body req !! "email" →
  req_body req' !! "password" = req_body req !! "password" →
  ∃ message token user token',
    res_body resp = Authenticated message token user
    ∧ POST_auth_login amb' req' w'
      = (Resolved {| res_status := 200;
                     res_body := Authenticated "Login successful" token' user |}, w').
Proof.
  intros Hbcrypt Hw%reachable_consistent Hregister Hstatus Hemail Hpassword.
  assert (consistent w') as Hw'.
  { pose proof (serve_consistent Post_auth_register amb req w Hw) as Hserve.
    unfold serve, app in Hserve. by rewrite Hregister in Hserve. }
  revert Hregister. unfold POST_auth_register. run. intros Hregister.
  repeat (case_match; simplify_eq/=).
  eexists _, _, _, _. split; [reflexivity|].
  erewrite login_run; [|done|apply lookup_insert_eq|by rewrite Hemail].
  rewrite Hpassword. cbn. by rewrite Hbcrypt.
Qed.

(** X19: a password that is missing from the body is not a credential
    error but a server error: registration answers 500 and stores nothing,
    and a login for the email of a stored user answers 500, whereas a login
    for an email nobody has still answers 400. *)
Theorem missing_password_is_a_server_error amb req w :
  req_body req !! "password" = None →
  let failed :=
    (Resolved {| res_status := 500; res_body := ServerError "Server error" BcryptError |},
     w) in
  ((∀ i u, users (db w) !! i = Some u →
           req_body req !! "email" ≠ Some (User.email u)
           ∧ req_body req !! "username" ≠ Some (User.username u)) →
   POST_auth_register amb req w = failed
   ∧ POST_auth_login amb req w
     = (Resolved {| res_status := 400; res_body := Message "Invalid credentials" |}, w))
  ∧ (∀ i u, reachable w → users (db w) !! i = Some u →
            req_body req !! "email" = Some (User.email u) →
            POST_auth_login amb req w = failed).
Proof.
  intros Hpassword. cbn zeta. split.
  - intros Hfree. split.
    + unfold POST_auth_register. run.
      destruct (List.find _ _) as [[j v]|] eqn:Hfind.
      * destruct (find_map_to_list_Some (users (db w))
                    (λ x, bool_decide (req_body req !! "email" = Some (User.email x))
                          || bool_decide (req_body req !! "username"
                                          = Some (User.username x)))
                    j v Hfind) as [Hv Hq].
        destruct (Hfree j v Hv) as [He Hu].
        by rewrite !bool_decide_eq_false_2 in Hq.
      * by rewrite Hpassword.
    + unfold POST_auth_login. run.
      destruct (List.find _ _) as [[j v]|] eqn:Hfind; [|done].
      destruct (find_map_to_list_Some (users (db w))
                  (λ x, bool_decide (req_body req !! "email" = Some (User.email x)))
                  j v Hfind) as [Hv Hq].
      destruct (Hfree j v Hv) as [He _]. by rewrite bool_decide_eq_false_2 in Hq.
  - intros i u Hw%reachable_consistent Hu Hemail.
    rewrite (login_run amb req w i u Hw Hu Hemail). by rewrite Hpassword.
Qed.

(** X26: the token handed out by a login is one the middleware accepts
    for that very user. Provided [jwt.verify] returns the claims [jwt.sign]
    was given and the token is a non-empty word without spaces, a request
    carrying [Bearer <token>] passes [authenticateToken] with [req.user]
    holding the id that the login answered in its user summary. *)
Theorem login_token_authenticates amb req w i u p amb' req' :
  reachable w →
  users (db w) !! i = Some u →
  req_body req !! "email" = Some (User.email u) →
  req_body req !! "password" = Some p →
  bcrypt_compare p (User.password u) = true →
  let claims := {| userId := i; username := User.username u |} in
  let token := jwt_sign claims "24h" (now amb) in
  jwt_verify token (now amb') = Some claims →
  includes " " token = false →
  Js.truthy token = true →
  req_headers req' !! "authorization" = Some ("Bearer " +:+ token) →
  (∃ user, (POST_auth_login amb req w).1
           = Resolved {| res_status := 200;
                         res_body := Authenticated "Login successful" token user |}
           ∧ id user = userId claims)
  ∧ ∀ next, authenticateToken amb' req' next = next claims.
Proof.
  intros Hw%reachable_consistent Hu Hemail Hpassword Hcompare claims token
    Hverify Hword Htruthy Hheader.
  split.
  - rewrite (login_run amb req w i u Hw Hu Hemail), Hpassword, Hcompare.
    eexists. split; [reflexivity | done].
  - intros next. apply authenticateToken_next. exists token. split_and!; [|done|done].
    unfold bearer_token. rewrite Hheader. cbn [Js.truthy_opt Js.truthy String.append].
    cbn [mbind option_bind].
    change ("Bearer " +:+ token) with ("Bearer" +:+ String " " token).
    rewrite split_around_separator, (split_without_separator " " token) by done.
    done.
Qed.

(** *** What is stored stays stored *)

Lemma serve_users r amb req w :
  users (db (serve r amb req w)) = users (db w)
  ∨ ∃ u, users (db (serve r amb req w)) = <[next_id w := u]> (users (db w))
         ∧ ∀ j v, users (db w) !! j = Some v →
                  User.email v ≠ User.email u ∧ User.username v ≠ User.username u.
Proof.
  unfold serve, app. destruct r; handlers; run.
  all: repeat (case_match; simplify_eq/=); auto.
  right. eexists. split; [reflexivity|]. cbn. intros j v Hv.
  match goal with
  | Hfind : List.find (λ kv, bool_decide (?e = _) || bool_decide (?u = _)) _ = None |- _ =>
      pose proof (find_map_to_list_None _
        (λ x, bool_decide (e = Some (User.email x))
              || bool_decide (u = Some (User.username x))) Hfind j v Hv) as Hq
  end.
  apply orb_false_iff in Hq as [He Hu].
  apply bool_decide_eq_false_1 in He, Hu. split; congruence.
Qed.

Lemma initial_generated : ids_generated initial_world.
Proof. split; intros *; cbn; by rewrite lookup_empty. Qed.

Lemma serve_generated r amb req w : ids_generated w → ids_generated (serve r amb req w).
Proof.
  intros [Hu Hs Hc]. unfold serve, app.
  destruct r; handlers; run.
  all: repeat (case_match; simplify_eq/=).
  all: try (by split).
  all: split; cbn.
  all: try (intros i x Hi; first [apply Hu in Hi | apply Hs in Hi | apply Hc in Hi]; lia).
  all: intros i x [[<- <-]|[? Hi]]%lookup_insert_Some;
    first [lia | by eapply Hs | apply Hu in Hi; lia | apply Hs in Hi; lia
          | apply Hc in Hi; lia].
Qed.

Lemma reachable_generated w : reachable w → ids_generated w.
Proof.
  induction 1 as [|w r amb req _ IH]; [apply initial_generated | by apply serve_generated].
Qed.

Lemma later_generated w w' : ids_generated w → later w w' → ids_generated w'.
Proof. intros Hw. induction 1; [done | by apply serve_generated]. Qed.

Lemma reachable_usernames_unique w : reachable w → usernames_unique w.
Proof.
  induction 1 as [|w r amb req Hw IH].
  - intros i j u v Hi. cbn in Hi. by rewrite lookup_empty in Hi.
  - unfold usernames_unique.
    destruct (serve_users r amb req w) as [->|(x & -> & Hfree)]; [done|].
    intros i j u v [[<- <-]|[? Hi]]%lookup_insert_Some
      [[<- <-]|[? Hj]]%lookup_insert_Some Hname; [done| | |by eapply IH].
    + apply Hfree in Hj as [_ Hj]. by destruct Hj.
    + apply Hfree in Hi as [_ Hi]. by destruct Hi.
Qed.

(** X20: in every world the API can reach, no two stored users have the
    same email and no two have the same username. *)
Theorem stored_users_are_distinct w i j u v :
  reachable w →
  users (db w) !! i = Some u →
  users (db w) !! j = Some v →
  User.email u = User.email v ∨ User.username u = User.username v →
  i = j.
Proof.
  intros Hw Hu Hv [Hsame|Hsame].
  - by eapply (emails_unique w (reachable_consistent w Hw)).
  - by eapply (reachable_usernames_unique w Hw).
Qed.

Lemma serve_solution_kept r amb req w i s :
  ids_generated w →
  solutions (db w) !! i = Some s →
  ∃ s', solutions (db (serve r amb req w)) !! i = Some s'
        ∧ s' = Solution.set_upvotes s (Solution.upvotes s').
Proof.
  intros [_ Hs _] Hi. unfold serve, app.
  destruct r; handlers; run.
  all: repeat (case_match; simplify_eq/=).
  all: try (exists s; split; [done | by destruct s]).
  - apply Hs in Hi as Hlt. rewrite lookup_insert_ne by lia.
    exists s; split; [done | by destruct s].
  - destruct (decide (req_params_id req = i)) as [<-|Hne].
    + rewrite lookup_insert_eq. eexists. split; [reflexivity|]. by simplify_eq.
    + rewrite lookup_insert_ne by done. exists s; split; [done | by destruct s].
  - destruct (decide (req_params_id req = i)) as [<-|Hne].
    + rewrite lookup_insert_eq. eexists. split; [reflexivity|]. by simplify_eq.
    + rewrite lookup_insert_ne by done. exists s; split; [done | by destruct s].
Qed.

Lemma serve_comment_kept r amb req w i c :
  ids_generated w →
  comments (db w) !! i = Some c →
  comments (db (serve r amb req w)) !! i = Some c.
Proof.
  intros [_ _ Hc] Hi. unfold serve, app.
  destruct r; handlers; run.
  all: repeat (case_match; simplify_eq/=); try done.
  apply Hc in Hi as Hlt. by rewrite lookup_insert_ne by lia.
Qed.

Lemma serve_user_kept r amb req w i u :
  ids_generated w →
  users (db w) !! i = Some u →
  users (db (serve r amb req w)) !! i = Some u.
Proof.
  intros [Hu _ _] Hi.
  destruct (serve_users r amb req w) as [->|(x & -> & _)]; [done|].
  apply Hu in Hi as Hlt. by rewrite lookup_insert_ne by lia.
Qed.

(** X21: no route edits or removes a user, a solution or a comment. Once
    stored in a reachable world, a user and a comment are found unchanged in
    every later world, and a solution is found with the same description,
    problem, owner and creation time: only its upvotes can differ. *)
Theorem users_solutions_comments_stay w w' :
  reachable w →
  later w w' →
  (∀ i u, users (db w) !! i = Some u → users (db w') !! i = Some u)
  ∧ (∀ i s, solutions (db w) !! i = Some s →
            ∃ s', solutions (db w') !! i = Some s'
                  ∧ s' = Solution.set_upvotes s (Solution.upvotes s'))
  ∧ (∀ i c, comments (db w) !! i = Some c → comments (db w') !! i = Some c).
Proof.
  intros Hw%reachable_generated Hlater.
  induction Hlater as [|w' r amb req Hlater (IHu & IHs & IHc)].
  - split_and!; [done| |done]. intros i s Hs. exists s. split; [done | by destruct s].
  - pose proof (later_generated w w' Hw Hlater) as Hw'. split_and!.
    + intros i u Hu. by apply serve_user_kept, IHu.
    + intros i s Hs. destruct (IHs i s Hs) as (sm & Hm & Em).
      destruct (serve_solution_kept r amb req w' i sm Hw' Hm) as (s' & Hs' & Es').
      exists s'. split; [done|]. rewrite Es', Em. by destruct s.
    + intros i c Hc. by apply serve_comment_kept, IHc.
Qed.

(** *** More about upvotes *)

Lemma toggled_comm u v l : u ≠ v → toggled u (toggled v l) ≡ₚ toggled v (toggled u l).
Proof.
  intros Hne.
  assert (∀ a b k, a ≠ b → (a ∈ toggled b k ↔ a ∈ k)) as Hin.
  { intros a b k Hab. unfold toggled. case_decide.
    - rewrite list_elem_of_filter. tauto.
    - rewrite elem_of_app, list_elem_of_singleton. tauto. }
  unfold toggled at 1 3.
  rewrite (decide_ext (u ∈ toggled v l) (u ∈ l)) by (by apply Hin).
  rewrite (decide_ext (v ∈ toggled u l) (v ∈ l)) by (by apply Hin).
  unfold toggled. destruct (decide (u ∈ l)), (decide (v ∈ l)).
  - clear. induction l as [|x l IH]; [done|].
    destruct (decide (x = u)) as [Hxu|Hxu]; destruct (decide (x = v)) as [Hxv|Hxv].
    all: rewrite ?filter_cons_True, ?filter_cons_False by tauto.
    all: rewrite ?filter_cons_True, ?filter_cons_False by tauto.
    all: by rewrite IH.
  - rewrite filter_app, filter_cons_True, filter_nil by congruence. done.
  - rewrite filter_app, filter_cons_True, filter_nil by congruence. done.
  - rewrite <- !app_assoc. apply Permutation_app_head. apply Permutation_swap.
Qed.

(** X22: in every world the API can reach, no user appears twice among the
    upvoters of a solution. *)
Theorem upvoters_never_repeat w i s :
  reachable w →
  solutions (db w) !! i = Some s →
  NoDup (Solution.upvotes s).
Proof. intros Hw%reachable_consistent Hs. by eapply upvotes_NoDup. Qed.

Lemma toggled_present u l : u ∈ l → toggled u l = filter (λ v, v ≠ u) l.
Proof. intros Hin. unfold toggled. by rewrite decide_True. Qed.

Lemma toggled_absent u l : u ∉ l → toggled u l = l ++ [u].
Proof. intros Hout. unfold toggled. by rewrite decide_False. Qed.

(** X23: an upvote moves the count by exactly one, and [hasUpvoted] tells
    which way: answered [true], the caller was not an upvoter and the count
    is one more than before; answered [false], the caller was one and the
    count is one less. *)
Theorem upvote_moves_count_by_one amb req user w s :
  reachable w →
  authenticated_as amb req user →
  solutions (db w) !! req_params_id req = Some s →
  ∃ count hasUpvoted,
    (POST_solution_upvote amb req w).1
    = Resolved {| res_status := 200; res_body := Upvotes count hasUpvoted |}
    ∧ (hasUpvoted = true →
       (userId user ∉ Solution.upvotes s)
       ∧ count = S (length (Solution.upvotes s)))
    ∧ (hasUpvoted = false →
       userId user ∈ Solution.upvotes s
       ∧ S count = length (Solution.upvotes s)).
Proof.
  intros Hw%reachable_consistent Hauth Hs.
  pose proof (upvotes_NoDup _ Hw _ _ Hs) as Hnd.
  rewrite (upvote_run amb req user w s Hw Hauth Hs). cbn [fst].
  eexists _, _. split; [reflexivity|].
  destruct (decide (userId user ∈ Solution.upvotes s)) as [Hin|Hout].
  - pose proof (toggled_twice (userId user) (Solution.upvotes s) Hnd) as Htwice.
    rewrite (toggled_present _ _ Hin) in Htwice |- *.
    assert (userId user ∉ filter (λ v, v ≠ userId user) (Solution.upvotes s)) as Hgone
      by (by intros [? _]%list_elem_of_filter).
    rewrite (toggled_absent _ _ Hgone) in Htwice.
    apply Permutation_length in Htwice. rewrite length_app in Htwice. cbn in Htwice.
    rewrite bool_decide_eq_false_2 by done.
    split; [done|]. intros _. split; [done | lia].
  - rewrite (toggled_absent _ _ Hout).
    rewrite bool_decide_eq_true_2
      by (apply elem_of_app; right; by apply list_elem_of_singleton).
    split; [|done]. intros _. split; [done|]. rewrite length_app. cbn. lia.
Qed.

(** X24: upvotes by different users do not interfere: served one after
    the other on the same solution, two upvote requests by different users
    leave the same upvoters, up to order, whichever comes first. *)
Theorem upvotes_by_two_users_commute amb1 req1 user1 amb2 req2 user2 w s :
  reachable w →
  authenticated_as amb1 req1 user1 →
  authenticated_as amb2 req2 user2 →
  userId user1 ≠ userId user2 →
  req_params_id req1 = req_params_id req2 →
  solutions (db w) !! req_params_id req1 = Some s →
  ∃ s12 s21,
    solutions
      (db (serve Post_solution_upvote amb2 req2 (serve Post_solution_upvote amb1 req1 w)))
      !! req_params_id req1 = Some s12
    ∧ solutions
        (db (serve Post_solution_upvote amb1 req1 (serve Post_solution_upvote amb2 req2 w)))
        !! req_params_id req1 = Some s21
    ∧ Solution.upvotes s12 ≡ₚ Solution.upvotes s21
    ∧ s12 = Solution.set_upvotes s21 (Solution.upvotes s12).
Proof.
  intros Hw%reachable_consistent Hauth1 Hauth2 Hne Hid Hs.
  pose proof (serve_consistent Post_solution_upvote amb1 req1 w Hw) as Hw1.
  pose proof (serve_consistent Post_solution_upvote amb2 req2 w Hw) as Hw2.
  revert Hw1 Hw2. unfold serve, app.
  rewrite (upvote_run amb1 req1 user1 w s Hw Hauth1 Hs).
  rewrite (upvote_run amb2 req2 user2 w s Hw Hauth2) by (by rewrite <- Hid).
  cbn [snd]. intros Hw1 Hw2.
  erewrite (upvote_run amb2 req2 user2); [|done|done|].
  2: { cbn. rewrite <- Hid. apply lookup_insert_eq. }
  erewrite (upvote_run amb1 req1 user1); [|done|done|].
  2: { cbn. rewrite <- Hid. apply lookup_insert_eq. }
  cbn. rewrite <- Hid. rewrite !lookup_insert_eq.
  eexists _, _. split_and!; [reflexivity | reflexivity | |done].
  cbn. by apply toggled_comm.
Qed.

(** *** Calls to Cloudinary *)

(** X25: without an attached file only DELETE can reach Cloudinary: on
    every other route a request without a file adds to the effects at most
    saves of documents, never an upload or a destroy. *)
Theorem without_file_only_delete_calls_cloudinary r amb req w :
  r ≠ Delete_problem →
  req_file req = None →
  ∃ saves,
    trace (serve r amb req w) = trace w ++ saves
    ∧ Forall (λ e, is_save e = true) saves
    ∧ length saves ≤ 1.
Proof.
  intros Hr Hfile. unfold serve, app.
  destruct r; try done; handlers; run.
  all: rewrite ?Hfile.
  all: repeat (case_match; simplify_eq/=).
  all: first [ exists []; rewrite app_nil_r; split_and!; [done | constructor | cbn; lia]
             | eexists [_]; split_and!;
               [reflexivity | by repeat constructor | cbn; lia] ].
Qed.

End Routes.

(** ** The further theorems at work on the sample deployment *)

Lemma unauthenticated_request_stops_at_middleware_witness :
  app (bcrypt := Sample.bcrypt) (jwt := Sample.jwt) (cloudinary := Sample.cloudinary)
    Post_problems Sample.clock Sample.report_unsigned Sample.registered
  = (Resolved {| res_status := 401; res_body := Message "Access token required" |},
     Sample.registered)
  ∧ app (bcrypt := Sample.bcrypt) (jwt := Sample.jwt) (cloudinary := Sample.cloudinary)
      Post_problems Sample.clock Sample.report_by_mallory Sample.registered
    = (Resolved {| res_status := 403; res_body := Message "Invalid token" |},
       Sample.registered).
Proof.
  split.
  - apply (unauthenticated_request_stops_at_middleware (bcrypt := Sample.bcrypt)
             (jwt := Sample.jwt) (cloudinary := Sample.cloudinary)
             Post_problems Sample.clock Sample.report_unsigned Sample.registered).
    + reflexivity.
    + intros user (token & Htoken & _). vm_compute in Htoken. discriminate.
  - apply (unauthenticated_request_stops_at_middleware (bcrypt := Sample.bcrypt)
             (jwt := Sample.jwt) (cloudinary := Sample.cloudinary)
             Post_problems Sample.clock Sample.report_by_mallory Sample.registered).
    + reflexivity.
    + intros user (token & Htoken & _ & Hverify). vm_compute in Htoken.
      injection Htoken as <-. vm_compute in Hverify. discriminate.
Defined.

Lemma read_routes_change_nothing_witness :
  Sample.run Get_problems Sample.clock (Sample.read 0) Sample.proposed = Sample.proposed.
Proof.
  apply (read_routes_change_nothing (bcrypt := Sample.bcrypt) (jwt := Sample.jwt)
           (cloudinary := Sample.cloudinary)
           Get_problems Sample.clock (Sample.read 0) Sample.proposed).
  reflexivity.
Defined.

Lemma bearer_token_is_second_word_witness :
  bearer_token Sample.rename_by_alice = Some "alice".
Proof.
  apply (bearer_token_is_second_word "Bearer" "alice" Sample.rename_by_alice).
  - reflexivity.
  - reflexivity.
  - vm_compute. reflexivity.
Defined.

Lemma publicId_of_reference_witness :
  publicId_of
    ("https://res.cloudinary.com/demo/image/upload/v1/crowdsolve" +:+ "/" +:+ "pothole"
     +:+ "." +:+ "jpg") = Some "pothole"
  ∧ publicId_of
      ("https://res.cloudinary.com/demo/image/upload/v1/crowdsolve" +:+ "/" +:+ "pothole")
    = Some "pothole".
Proof.
  apply (publicId_of_reference
           "https://res.cloudinary.com/demo/image/upload/v1/crowdsolve" "pothole" "jpg").
  - reflexivity.
  - reflexivity.
  - reflexivity.
Defined.

Lemma missing_problem_not_found_witness :
  app (bcrypt := Sample.bcrypt) (jwt := Sample.jwt) (cloudinary := Sample.cloudinary)
    Put_problem Sample.clock Sample.rename_missing_by_alice Sample.reported
  = (Resolved {| res_status := 404; res_body := Message "Problem not found" |},
     Sample.reported).
Proof.
  apply (missing_problem_not_found (bcrypt := Sample.bcrypt) (jwt := Sample.jwt)
           (cloudinary := Sample.cloudinary)
           Put_problem Sample.clock Sample.rename_missing_by_alice Sample.alice
           Sample.reported).
  - right. split; [by left | apply sample_alice].
  - vm_compute. reflexivity.
Defined.

Lemma delete_by_non_owner_forbidden_witness :
  DELETE_problem (jwt := Sample.jwt) (cloudinary := Sample.cloudinary)
    Sample.clock Sample.delete_by_bob Sample.reported
  = (Resolved {| res_status := 403;
                 res_body := Message "Not authorized to delete this problem" |},
     Sample.reported).
Proof.
  apply (delete_by_non_owner_forbidden (jwt := Sample.jwt)
           (cloudinary := Sample.cloudinary) Sample.clock Sample.delete_by_bob Sample.bob
           Sample.reported Sample.pothole).
  - apply sample_bob.
  - vm_compute. reflexivity.
  - vm_compute. discriminate.
Defined.

Lemma delete_removes_only_the_problem_witness :
  ∃ w',
    DELETE_problem (jwt := Sample.jwt) (cloudinary := Sample.cloudinary)
      Sample.clock Sample.delete_by_alice Sample.proposed
    = (Resolved {| res_status := 200;
                   res_body := Message "Problem deleted successfully" |}, w')
    ∧ solutions (db w') !! 3 = Some Sample.filling
    ∧ GET_problem Sample.clock (Sample.read 2) w'
      = (Resolved {| res_status := 404; res_body := Message "Problem not found" |}, w').
Proof.
  destruct (delete_removes_only_the_problem (jwt := Sample.jwt)
              (cloudinary := Sample.cloudinary) Sample.clock Sample.delete_by_alice
              Sample.alice Sample.proposed Sample.pothole)
    as (w' & Hrun & Hdb & _ & Hget).
  - apply sample_alice.
  - vm_compute. reflexivity.
  - reflexivity.
  - exists w'. split; [exact Hrun|]. split; [|by apply Hget].
    rewrite Hdb. vm_compute. reflexivity.
Defined.

Lemma created_problem_can_be_read_witness :
  GET_problem Sample.clock (Sample.read 2) Sample.reported
  = (Resolved {| res_status := 200; res_body := ProblemDoc Sample.pothole_document |},
     Sample.reported).
Proof.
  apply (created_problem_can_be_read (jwt := Sample.jwt) (cloudinary := Sample.cloudinary)
           Sample.clock Sample.report_pothole Sample.registered Sample.pothole_document
           Sample.reported Sample.clock (Sample.read 2)).
  - vm_compute. reflexivity.
  - reflexivity.
Defined.


Lemma invalid_problem_leaves_uploaded_asset_witness :
  POST_problems (jwt := Sample.jwt) (cloudinary := Sample.cloudinary)
    Sample.clock Sample.report_untitled Sample.registered
  = (Resolved
       {| res_status := 500;
          res_body := ServerError "Server error" (ValidationError "Problem" ["title"]) |},
     mkWorld (db Sample.registered) 3 (trace Sample.registered ++ [CloudUpload Sample.photo])).
Proof.
  apply (invalid_problem_leaves_uploaded_asset (jwt := Sample.jwt)
           (cloudinary := Sample.cloudinary)
           Sample.clock Sample.report_untitled Sample.alice Sample.registered
           Sample.photo Sample.secure_url).
  - apply sample_alice.
  - reflexivity.
  - reflexivity.
  - vm_compute. reflexivity.
Defined.

Lemma update_replaces_image_witness :
  ∃ P',
    PUT_problem (jwt := Sample.jwt) (cloudinary := Sample.cloudinary)
      Sample.clock Sample.new_photo Sample.reported
    = (Resolved
         {| res_status := 200;
            res_body :=
              ProblemDoc
                (Mongoose.populated
                   (Mongoose.with_problems (db Sample.reported)
                      (<[2 := P']> (problems (db Sample.reported))))
                   Problem.postedBy (2, P')) |},
       mkWorld
         (Mongoose.with_problems (db Sample.reported)
            (<[2 := P']> (problems (db Sample.reported))))
         (next_id Sample.reported)
         (trace Sample.reported
          ++ [CloudDestroy "crowdsolve/pothole"; CloudUpload Sample.photo;
              DbSave Problems 2]))
    ∧ Problem.image P' = Some Sample.secure_url
    ∧ Problem.postedBy P' = 0
    ∧ Problem.createdAt P' = 1000
    ∧ Problem.status P' = open.
Proof.
  destruct (update_replaces_image (jwt := Sample.jwt) (cloudinary := Sample.cloudinary)
              Sample.clock Sample.new_photo Sample.alice Sample.reported Sample.pothole
              Sample.photo)
    as (publicId & Hname & Hrun).
  - apply sample_alice.
  - vm_compute. reflexivity.
  - reflexivity.
  - reflexivity.
  - specialize (Hname Sample.secure_url eq_refl eq_refl).
    apply file_name_publicId_of in Hname. vm_compute in Hname. injection Hname as <-.
    destruct (Hrun Sample.secure_url eq_refl) as (P' & HP').
    exists P'. exact HP'.
Defined.

Lemma child_documents_need_only_their_text_witness :
  ∃ resp w',
    POST_problem_solutions (jwt := Sample.jwt) Sample.clock
      (Sample.request "bob" 9 [("description", "Fill it")] None) Sample.registered
    = (Resolved resp, w')
    ∧ res_status resp = 201
    ∧ problems (db Sample.registered) !! 9 = None
    ∧ solutions (db w') !! 2 = Some (Solution.mk "Fill it" 9 1 [] 1000).
Proof.
  destruct (child_documents_need_only_their_text (jwt := Sample.jwt) Sample.clock
              (Sample.request "bob" 9 [("description", "Fill it")] None) Sample.bob
              Sample.registered (sample_bob _ _ _))
    as [(resp & w' & Hrun & Hiff & _ & Hstored) _].
  assert (res_status resp = 201) as Hstatus by (apply Hiff; reflexivity).
  exists resp, w'. split; [exact Hrun|]. split; [exact Hstatus|].
  split; [vm_compute; reflexivity|].
  destruct (Hstored Hstatus) as (description & Hdescription & ->).
  vm_compute in Hdescription. injection Hdescription as <-.
  vm_compute. reflexivity.
Defined.

Lemma posted_solution_is_listed_witness :
  Solution.upvotes Sample.filling = []
  ∧ Solution.problemId Sample.filling = 2
  ∧ ∃ ds, GET_problem_solutions Sample.clock (Sample.read 2) Sample.proposed
          = (Resolved {| res_status := 200; res_body := SolutionList ds |}, Sample.proposed)
          ∧ {| doc_id := 3; doc := Sample.filling; doc_postedBy := Some (1, "bob") |} ∈ ds.
Proof.
  apply (posted_solution_is_listed (jwt := Sample.jwt) Sample.clock Sample.propose_fix
           Sample.reported
           {| doc_id := 3; doc := Sample.filling; doc_postedBy := Some (1, "bob") |}
           Sample.proposed Sample.clock (Sample.read 2)).
  - vm_compute. reflexivity.
  - reflexivity.
Defined.

Lemma posted_comment_is_listed_witness :
  ∃ d w',
    POST_solution_comments (jwt := Sample.jwt) Sample.clock Sample.comment_by_bob
      Sample.proposed
    = (Resolved {| res_status := 201; res_body := CommentDoc d |}, w')
    ∧ Comment.solutionId (doc d) = 3
    ∧ ∃ ds, GET_solution_comments Sample.clock (Sample.read 3) w'
            = (Resolved {| res_status := 200; res_body := CommentList ds |}, w')
            ∧ d ∈ ds.
Proof.
  eexists _, _. split; [vm_compute; reflexivity|].
  eapply (posted_comment_is_listed (jwt := Sample.jwt) Sample.clock Sample.comment_by_bob
            Sample.proposed).
  - vm_compute. reflexivity.
  - reflexivity.
Defined.

Lemma login_succeeds_witness :
  POST_auth_login (bcrypt := Sample.bcrypt) (jwt := Sample.jwt) Sample.clock
    Sample.login_bob Sample.registered
  = (Resolved
       {| res_status := 200;
          res_body :=
            Authenticated "Login successful" "bob"
              {| id := 1; summary_username := "bob"; summary_email := "bob@example.org" |} |},
     Sample.registered).
Proof.
  apply (login_succeeds (bcrypt := Sample.bcrypt) (jwt := Sample.jwt)
           (cloudinary := Sample.cloudinary)
           Sample.clock Sample.login_bob Sample.registered 1 Sample.bob_account "builder").
  - apply sample_registered_reachable.
  - vm_compute. reflexivity.
  - reflexivity.
  - reflexivity.
  - reflexivity.
Defined.

Lemma sample_bcrypt_accepts_its_digest p rounds salt :
  bcrypt_compare (Bcrypt := Sample.bcrypt) p
    (bcrypt_hash (Bcrypt := Sample.bcrypt) p rounds salt) = true.
Proof. by apply bool_decide_eq_true_2. Defined.

Lemma register_then_login_witness :
  ∃ message token user token' resp w',
    POST_auth_register (bcrypt := Sample.bcrypt) (jwt := Sample.jwt) Sample.clock
      Sample.register_carol Sample.registered = (Resolved resp, w')
    ∧ res_body resp = Authenticated message token user
    ∧ POST_auth_login (bcrypt := Sample.bcrypt) (jwt := Sample.jwt) Sample.clock
        Sample.register_carol w'
      = (Resolved {| res_status := 200;
                     res_body := Authenticated "Login successful" token' user |}, w').
Proof.
  destruct (register_then_login (bcrypt := Sample.bcrypt) (jwt := Sample.jwt)
              (cloudinary := Sample.cloudinary)
              Sample.clock Sample.register_carol Sample.registered
              {| res_status := 201;
                 res_body :=
                   Authenticated "User created successfully" "carol"
                     {| id := 2; summary_username := "carol";
                        summary_email := "carol@example.org" |} |}
              (Sample.run Post_auth_register Sample.clock Sample.register_carol
                 Sample.registered)
              Sample.clock Sample.register_carol)
    as (message & token & user & token' & Hbody & Hlogin).
  - apply sample_bcrypt_accepts_its_digest.
  - apply sample_registered_reachable.
  - vm_compute. reflexivity.
  - reflexivity.
  - reflexivity.
  - reflexivity.
  - eexists message, token, user, token', _, _.
    split; [vm_compute; reflexivity|]. split; [exact Hbody | exact Hlogin].
Defined.

Lemma missing_password_is_a_server_error_witness :
  POST_auth_login (bcrypt := Sample.bcrypt) (jwt := Sample.jwt) Sample.clock
    Sample.login_bob_no_password Sample.registered
  = (Resolved {| res_status := 500; res_body := ServerError "Server error" BcryptError |},
     Sample.registered).
Proof.
  destruct (missing_password_is_a_server_error (bcrypt := Sample.bcrypt)
              (jwt := Sample.jwt) (cloudinary := Sample.cloudinary)
              Sample.clock Sample.login_bob_no_password Sample.registered)
    as [_ Hknown].
  - vm_compute. reflexivity.
  - apply (Hknown 1 Sample.bob_account).
    + apply sample_registered_reachable.
    + vm_compute. reflexivity.
    + reflexivity.
Defined.

Lemma stored_users_are_distinct_witness : 1 = 1.
Proof.
  apply (stored_users_are_distinct (bcrypt := Sample.bcrypt) (jwt := Sample.jwt)
           (cloudinary := Sample.cloudinary)
           Sample.registered 1 1 Sample.bob_account Sample.bob_account).
  - apply sample_registered_reachable.
  - vm_compute. reflexivity.
  - vm_compute. reflexivity.
  - left. reflexivity.
Defined.

Lemma users_solutions_comments_stay_witness :
  users (db Sample.proposed) !! 1 = Some Sample.bob_account.
Proof.
  destruct (users_solutions_comments_stay (bcrypt := Sample.bcrypt) (jwt := Sample.jwt)
              (cloudinary := Sample.cloudinary) Sample.registered Sample.proposed)
    as (Husers & _ & _).
  - apply sample_registered_reachable.
  - apply later_serve, later_serve, later_refl.
  - apply Husers. vm_compute. reflexivity.
Defined.

Lemma upvoters_never_repeat_witness : NoDup [0].
Proof.
  apply (upvoters_never_repeat (bcrypt := Sample.bcrypt) (jwt := Sample.jwt)
           (cloudinary := Sample.cloudinary)
           Sample.upvoted 3 (Solution.set_upvotes Sample.filling [0])).
  - apply reachable_serve, sample_proposed_reachable.
  - vm_compute. reflexivity.
Defined.

Lemma upvote_moves_count_by_one_witness :
  ∃ count hasUpvoted,
    (POST_solution_upvote (jwt := Sample.jwt) Sample.clock Sample.upvote_by_bob
       Sample.upvoted).1
    = Resolved {| res_status := 200; res_body := Upvotes count hasUpvoted |}
    ∧ (hasUpvoted = true → (1 ∉ [0]) ∧ count = 2)
    ∧ (hasUpvoted = false → 1 ∈ [0] ∧ S count = 1).
Proof.
  apply (upvote_moves_count_by_one (bcrypt := Sample.bcrypt) (jwt := Sample.jwt)
           (cloudinary := Sample.cloudinary)
           Sample.clock Sample.upvote_by_bob Sample.bob Sample.upvoted
           (Solution.set_upvotes Sample.filling [0])).
  - apply reachable_serve, sample_proposed_reachable.
  - apply sample_bob.
  - vm_compute. reflexivity.
Defined.

Lemma upvotes_by_two_users_commute_witness :
  ∃ s12 s21,
    solutions
      (db (Sample.run Post_solution_upvote Sample.clock Sample.upvote_by_bob
             (Sample.run Post_solution_upvote Sample.clock Sample.upvote_by_alice
                Sample.proposed))) !! 3 = Some s12
    ∧ solutions
        (db (Sample.run Post_solution_upvote Sample.clock Sample.upvote_by_alice
               (Sample.run Post_solution_upvote Sample.clock Sample.upvote_by_bob
                  Sample.proposed))) !! 3 = Some s21
    ∧ Solution.upvotes s12 ≡ₚ Solution.upvotes s21
    ∧ s12 = Solution.set_upvotes s21 (Solution.upvotes s12).
Proof.
  apply (upvotes_by_two_users_commute (bcrypt := Sample.bcrypt) (jwt := Sample.jwt)
           (cloudinary := Sample.cloudinary)
           Sample.clock Sample.upvote_by_alice Sample.alice
           Sample.clock Sample.upvote_by_bob Sample.bob Sample.proposed Sample.filling).
  - apply sample_proposed_reachable.
  - apply sample_alice.
  - apply sample_bob.
  - vm_compute. discriminate.
  - reflexivity.
  - vm_compute. reflexivity.
Defined.

Lemma without_file_only_delete_calls_cloudinary_witness :
  ∃ saves,
    trace (Sample.run Post_problem_solutions Sample.clock Sample.propose_fix Sample.reported)
    = trace Sample.reported ++ saves
    ∧ Forall (λ e, is_save e = true) saves
    ∧ length saves ≤ 1.
Proof.
  apply (without_file_only_delete_calls_cloudinary (bcrypt := Sample.bcrypt)
           (jwt := Sample.jwt) (cloudinary := Sample.cloudinary)
           Post_problem_solutions Sample.clock Sample.propose_fix Sample.reported).
  - discriminate.
  - reflexivity.
Defined.

Lemma login_token_authenticates_witness :
  (∃ user, (POST_auth_login (bcrypt := Sample.bcrypt) (jwt := Sample.jwt) Sample.clock
              Sample.login_bob Sample.registered).1
           = Resolved {| res_status := 200;
                         res_body := Authenticated "Login successful" "bob" user |}
           ∧ id user = 1)
  ∧ ∀ next, authenticateToken (jwt := Sample.jwt) Sample.clock Sample.upvote_by_bob next
            = next Sample.bob.
Proof.
  apply (login_token_authenticates (bcrypt := Sample.bcrypt) (jwt := Sample.jwt)
           (cloudinary := Sample.cloudinary)
           Sample.clock Sample.login_bob Sample.registered 1 Sample.bob_account "builder"
           Sample.clock Sample.upvote_by_bob).
  - apply sample_registered_reachable.
  - vm_compute. reflexivity.
  - reflexivity.
  - reflexivity.
  - reflexivity.
  - reflexivity.
  - reflexivity.
  - reflexivity.
  - vm_compute. reflexivity.
Defined.
